(** * Molecule-to-record encoding of [0_save-training-data.ipynb]

    A shallow embedding of the three pieces of logic of the notebook
    [molecular-property-prediction/message-passing-networks/0_save-training-data.ipynb]:
    - [make_type_lookup_tables] (the vocabulary builder),
    - [convert_mol_to_dict] (the record encoder),
    - the loop that adds the labels to each stored dict and writes it.

    Python sets are [gset]s, Python dicts are [gmap]s keyed by strings, Python
    lists and the rows of a numpy array are Rocq lists, exceptions are the
    [Raise] results of a small error monad. *)

From Stdlib Require Import ZArith QArith Lia.
From stdpp Require Import gmap strings list sorting.

#[local] Set Warnings "-clear-no-such-hyp".

(** ** The molecule, as the notebook reads it through RDKit *)

(** Modelled from the spec: RDKit's [BondType] enumeration is not part of the
    notebook.  The spec (section 3) names four bond categories; the output of
    the fifth cell prints the sorted vocabulary as SINGLE, DOUBLE, TRIPLE,
    AROMATIC.  The enumeration compares by its integer value. *)
Inductive BondType := SINGLE | DOUBLE | TRIPLE | AROMATIC.

Definition bond_value (b : BondType) : Z :=
  match b with SINGLE => 1 | DOUBLE => 2 | TRIPLE => 3 | AROMATIC => 12 end.

Definition bond_of_value (z : Z) : option BondType :=
  if decide (z = 1)%Z then Some SINGLE
  else if decide (z = 2)%Z then Some DOUBLE
  else if decide (z = 3)%Z then Some TRIPLE
  else if decide (z = 12)%Z then Some AROMATIC
  else None.

#[global] Instance BondType_eq_dec : EqDecision BondType.
Proof. solve_decision. Defined.

#[global] Instance BondType_countable : Countable BondType.
Proof.
  apply (inj_countable bond_value bond_of_value).
  intros []; reflexivity.
Defined.

(** [a <= b] on bond categories, as Python's [sorted] compares them. *)
Definition bond_leb (a b : BondType) : bool := (bond_value a <=? bond_value b)%Z.
Definition bond_lt (a b : BondType) : Prop := (bond_value a < bond_value b)%Z.

(** An atom ([x.GetAtomicNum()]), a bond ([GetBeginAtomIdx], [GetEndAtomIdx],
    [GetBondType]) and a molecule ([GetAtoms], [GetBonds]); the position of an
    atom in [GetAtoms] is its index. *)
Record Atom := { GetAtomicNum : Z }.

Record Bond := {
  GetBeginAtomIdx : nat;
  GetEndAtomIdx : nat;
  GetBondType : BondType
}.

Record Mol := {
  GetAtoms : list Atom;
  GetBonds : list Bond
}.

(** ** Exceptions *)

Inductive PyError :=
  | ValueError_not_in_list
      (* raised by [list.index(x)] when [x] is not in the list *)
  | NameError (name : string)
      (* a global name that nothing in the notebook binds *)
  | ValueError_unconnected (mol : Mol).
      (* [ValueError(f"Problem with unconnected atoms for {smiles}")] *)

Inductive result (A : Type) :=
  | Ok (a : A)
  | Raise (e : PyError).
Arguments Ok {A} a.
Arguments Raise {A} e.

#[global] Instance result_ret : MRet result := λ A a, Ok a.
#[global] Instance result_bind : MBind result := λ A B f m,
  match m with Ok a => f a | Raise e => Raise e end.

Definition is_Ok {A} (m : result A) : Prop := ∃ a, m = Ok a.

(** ** Python and numpy primitives *)

(** [l.index(x)]: the first position of [x], or [ValueError]. *)
Definition index {A} `{EqDecision A} (l : list A) (x : A) : result nat :=
  match list_find (λ y, y = x) l with
  | Some (i, _) => Ok i
  | None => Raise ValueError_not_in_list
  end.

(** [sorted(xs)]: a stable sort; [le x y] is Python's [x <= y]. *)
Section stable_sort.
Context {A : Type} (le : A → A → bool).

Fixpoint insert_sorted (x : A) (l : list A) : list A :=
  match l with
  | [] => [x]
  | y :: l' => if le x y then x :: y :: l' else y :: insert_sorted x l'
  end.

Definition sorted (l : list A) : list A := foldr insert_sorted [] l.
End stable_sort.

(** A numpy array of shape (n, 2) is the list of its rows. *)
Definition Row : Type := nat * nat.

(** [arr.size] *)
Definition array_size (arr : list Row) : nat := 2 * length arr.

(** The entries of the array, row by row. *)
Definition array_entries (arr : list Row) : list nat :=
  flat_map (λ r : Row, [r.1; r.2]) arr.

(** [arr.max()], on an array that is not empty *)
Definition array_max (arr : list Row) : nat := max_list (array_entries arr).

(** Lexicographic comparison of the rows [i] and [j] on the keys
    [(primary, secondary)]. *)
Definition key_leb (secondary primary : list nat) (i j : nat) : bool :=
  let pi := primary !!! i in let pj := primary !!! j in
  (pi <? pj) || ((pi =? pj) && (secondary !!! i <=? secondary !!! j)).

(** [np.lexsort((secondary, primary))]: the indices that sort the rows by
    [primary], ties by [secondary], remaining ties in the original order. *)
Definition lexsort (secondary primary : list nat) : list nat :=
  sorted (key_leb secondary primary) (seq 0 (length primary)).

(** [arr[inds, :]] *)
Definition take_rows (arr : list Row) (inds : list nat) : list Row :=
  (λ i, arr !!! i) <$> inds.

(** The names bound at the top level of the notebook (imports, functions and
    assignments of every cell).  A name looked up inside a function that is
    neither a local nor one of these nor a builtin raises [NameError]. *)
Definition notebook_globals : list string :=
  [ "List"; "Tuple"; "plt"; "make_tfrecord"; "train_test_split"; "Chem";
    "tqdm"; "tf"; "pd"; "np"; "json";
    "data"; "make_type_lookup_tables"; "atom_types"; "bond_types";
    "convert_mol_to_dict"; "train_data"; "test_data"; "valid_data";
    "name"; "dataset"; "writer"; "entry"; "record"; "o"; "_" ]%string.

Definition load_name (name : string) : result () :=
  if bool_decide (name ∈ notebook_globals) then Ok () else Raise (NameError name).

(** ** The vocabulary builder *)

(** The two sets after the loop [for mol in mols: ... .update(...)]. *)
Definition observed_types (mols : list Mol) : gset Z * gset BondType :=
  fold_left
    (λ acc mol,
       (acc.1 ∪ list_to_set (GetAtomicNum <$> GetAtoms mol),
        acc.2 ∪ list_to_set (GetBondType <$> GetBonds mol)))
    mols (∅, ∅).

Definition make_type_lookup_tables (mols : list Mol) : list Z * list BondType :=
  let '(atom_types, bond_types) := observed_types mols in
  (sorted Z.leb (elements atom_types), sorted bond_leb (elements bond_types)).

(** ** The record encoder *)

(** The dict that [convert_mol_to_dict] returns has the five fixed keys of its
    literal; it is a record here, and [as_dict] below is the same object as a
    map from key to value. *)
Record EncodedRecord := {
  n_atom : nat;
  n_bond : nat;
  atom : list nat;
  bond : list nat;
  connectivity : list Row
}.

(** The loop over [mol.GetBonds()]: two rows and two types appended per bond. *)
Definition bond_loop (bonds : list Bond) : list Row * list BondType :=
  fold_left
    (λ acc bond,
       let a := GetBeginAtomIdx bond in
       let b := GetEndAtomIdx bond in
       let b_type := GetBondType bond in
       (acc.1 ++ [(a, b)] ++ [(b, a)], acc.2 ++ [b_type] ++ [b_type]))
    bonds ([], []).

Definition convert_mol_to_dict
    (mol : Mol) (atom_types : list Z) (bond_types : list BondType)
    : result EncodedRecord :=
  let atom_type := GetAtomicNum <$> GetAtoms mol in
  atom_type_id ← mapM (index atom_types) atom_type;
  let '(connectivity0, edge_type) := bond_loop (GetBonds mol) in
  edge_type_id ← mapM (index bond_types) edge_type;
  if bool_decide (0 < array_size connectivity0) then
    let inds := lexsort (snd <$> connectivity0) (fst <$> connectivity0) in
    let connectivity1 := take_rows connectivity0 inds in
    if bool_decide (Z.of_nat (array_max connectivity1)
                    ≠ Z.of_nat (length atom_type) - 1)%Z then
      _ ← load_name "convert_nx_to_smiles"%string;
      _ ← load_name "graph"%string;
      Raise (ValueError_unconnected mol)
    else
      Ok {| n_atom := length atom_type; n_bond := length edge_type;
            atom := atom_type_id; bond := edge_type_id;
            connectivity := connectivity1 |}
  else
    Ok {| n_atom := length atom_type; n_bond := length edge_type;
          atom := atom_type_id; bond := edge_type_id;
          connectivity := [] |}.

(** ** Notions used in the statements *)

(** The rows and the types that the loop over the bonds appends, in the order
    of emission. *)
Definition directed_rows (bonds : list Bond) : list Row :=
  flat_map (λ bond, [(GetBeginAtomIdx bond, GetEndAtomIdx bond);
                     (GetEndAtomIdx bond, GetBeginAtomIdx bond)]) bonds.

Definition directed_types (bonds : list Bond) : list BondType :=
  flat_map (λ bond, [GetBondType bond; GetBondType bond]) bonds.

(** The connectivity table after [np.lexsort] and the row selection. *)
Definition sorted_rows (rows : list Row) : list Row :=
  take_rows rows (lexsort (snd <$> rows) (fst <$> rows)).

(** Row [r1] may come before row [r2]: by source, then by target. *)
Definition row_le (r1 r2 : Row) : Prop :=
  r1.1 < r2.1 ∨ (r1.1 = r2.1 ∧ r1.2 ≤ r2.2).

(** Atom [i] is an end of some bond of the molecule. *)
Definition bonded (mol : Mol) (i : nat) : Prop :=
  ∃ b, b ∈ GetBonds mol ∧ (GetBeginAtomIdx b = i ∨ GetEndAtomIdx b = i).

(** Every bond joins two atoms of the molecule. *)
Definition bonds_in_range (mol : Mol) : Prop :=
  ∀ b, b ∈ GetBonds mol →
    GetBeginAtomIdx b < length (GetAtoms mol) ∧
    GetEndAtomIdx b < length (GetAtoms mol).

(** Every atom and bond type of the molecule is in the vocabularies. *)
Definition in_vocabulary
    (mol : Mol) (atom_types : list Z) (bond_types : list BondType) : Prop :=
  (∀ a, a ∈ GetAtoms mol → GetAtomicNum a ∈ atom_types) ∧
  (∀ b, b ∈ GetBonds mol → GetBondType b ∈ bond_types).

(** The bond of the molecule between the two atoms of a row. *)
Definition bond_of_row (mol : Mol) (row : Row) : option Bond :=
  snd <$> list_find
    (λ b, (GetBeginAtomIdx b, GetEndAtomIdx b) = row ∨
          (GetEndAtomIdx b, GetBeginAtomIdx b) = row)
    (GetBonds mol).

(** Row [i] of [bond] is the vocabulary index of the bond of row [i] of
    [connectivity]. *)
Definition bond_matches_row
    (mol : Mol) (bond_types : list BondType) (r : EncodedRecord) (i : nat)
    : Prop :=
  ∃ row b j,
    connectivity r !! i = Some row ∧
    bond_of_row mol row = Some b ∧
    index bond_types (GetBondType b) = Ok j ∧
    bond r !! i = Some j.

(** Comparison by an integer key: [key a <= key b] and [key a < key b]. *)
Definition leb_by {A} (key : A → Z) (a b : A) : bool := (key a <=? key b)%Z.
Definition lt_by {A} (key : A → Z) (a b : A) : Prop := (key a < key b)%Z.

(** ** Dict objects and the loop that writes the partitions *)

(** The values held by the dicts: the two counts, the two index lists, the
    connectivity array, and the floating-point labels, which the notebook only
    copies. *)
Inductive Value (float : Type) :=
  | VInt (n : nat)
  | VList (l : list nat)
  | VArray (rows : list Row)
  | VFloat (x : float).
Arguments VInt {float} n.
Arguments VList {float} l.
Arguments VArray {float} rows.
Arguments VFloat {float} x.

(** A row of the data frame: [entry['dict']] is a reference to a dict object,
    [entry['u0_atom']] and [entry['bandgap']] are the labels. *)
Record Entry (float : Type) := {
  entry_dict : nat;
  entry_u0_atom : float;
  entry_bandgap : float
}.
Arguments entry_dict {float} e.
Arguments entry_u0_atom {float} e.
Arguments entry_bandgap {float} e.

Section write_records.
Context {float tfrecord : Type}.

(** [mpnn.data.make_tfrecord], which the notebook imports. *)
Variable make_tfrecord : gmap string (Value float) → tfrecord.

Abbreviation dict := (gmap string (Value float)).
Abbreviation heap := (gmap nat (gmap string (Value float))).

(** The dict literal that [convert_mol_to_dict] returns. *)
Definition as_dict (r : EncodedRecord) : dict :=
  <["n_atom" := VInt (n_atom r)]> (
  <["n_bond" := VInt (n_bond r)]> (
  <["atom" := VList (atom r)]> (
  <["bond" := VList (bond r)]> (
  <["connectivity" := VArray (connectivity r)]> ∅)))).

(** The keys of that literal. *)
Definition encoder_fields : gset string :=
  {[ "n_atom"; "n_bond"; "atom"; "bond"; "connectivity" ]}%string.

(** A dict literal evaluates to a new object. *)
Definition new_dict (h : heap) (d : dict) : nat * heap :=
  let l := fresh (dom h) in (l, <[l := d]> h).

(** A call of [convert_mol_to_dict] in a state [h] of the notebook. *)
Definition call_convert_mol_to_dict
    (h : heap) (mol : Mol) (atom_types : list Z) (bond_types : list BondType)
    : result (nat * heap) :=
  r ← convert_mol_to_dict mol atom_types bond_types;
  Ok (new_dict h (as_dict r)).

(** [record[o] = v] on the dict object that [record] refers to. *)
Definition set_item (h : heap) (record : nat) (o : string) (v : Value float)
    : heap :=
  alter (λ d, <[o := v]> d) record h.

(** [entry[o]] for the two label columns. *)
Definition entry_label (entry : Entry float) (o : string) : float :=
  if decide (o = "u0_atom"%string) then entry_u0_atom entry
  else entry_bandgap entry.

(** The body of the loop over the entries of a data set; the state is the heap
    and the records written so far. *)
Definition write_entry (st : heap * list tfrecord) (entry : Entry float)
    : heap * list tfrecord :=
  let record := entry_dict entry in
  let h :=
    foldl (λ h o, set_item h record o (VFloat (entry_label entry o)))
          st.1 ["u0_atom"; "bandgap"]%string in
  (h, st.2 ++ [make_tfrecord (h !!! record)]).

Definition file_name (name : string) : string :=
  ("datasets/" +:+ name +:+ "_data.proto")%string.

(** The body of the loop over the partitions: a writer is opened on the file
    of the partition and every entry is written. *)
Definition write_partition
    (st : heap * gmap string (list tfrecord))
    (part : string * list (Entry float))
    : heap * gmap string (list tfrecord) :=
  let st' := foldl write_entry (st.1, []) part.2 in
  (st'.1, <[file_name part.1 := st'.2]> st.2).

Definition write_partitions
    (parts : list (string * list (Entry float)))
    (st : heap * gmap string (list tfrecord))
    : heap * gmap string (list tfrecord) :=
  foldl write_partition st parts.

(** The loop of the last cell. *)
Definition save_data (train_data valid_data test_data : list (Entry float))
    (st : heap * gmap string (list tfrecord))
    : heap * gmap string (list tfrecord) :=
  write_partitions
    (zip ["train"; "valid"; "test"]%string [train_data; valid_data; test_data])
    st.

(** Notions used in the statements about the loop: the dict [d] after the two
    labels are stored in it. *)
Definition with_labels (u b : float) (d : dict) : dict :=
  <["bandgap"%string := VFloat b]> (<["u0_atom"%string := VFloat u]> d).

(** The heap after the two labels of [entry] are stored. *)
Definition label_entry (entry : Entry float) (h : heap) : heap :=
  alter (with_labels (entry_u0_atom entry) (entry_bandgap entry))
        (entry_dict entry) h.

(** What the entries [es] do to the dict at [l]. *)
Definition labels_for (l : nat) (es : list (Entry float)) (d : dict) : dict :=
  foldl (λ d e, if decide (entry_dict e = l)
                then with_labels (entry_u0_atom e) (entry_bandgap e) d
                else d) d es.

(** The dict was made by the encoder for [r] and may have its labels. *)
Definition encoder_dict (r : EncodedRecord) (d : dict) : Prop :=
  d = as_dict r ∨ ∃ u b, d = with_labels u b (as_dict r).

(** The record that is written has the seven fields. *)
Definition labelled_record (t : tfrecord) : Prop :=
  ∃ r u b, t = make_tfrecord (with_labels u b (as_dict r)).

End write_records.

(** ** The connectivity array with its shape *)

(** The numpy arrays that the variable [connectivity] holds: an array of one
    axis, of shape [(n,)], or an array of two axes with two entries per row,
    of shape [(n, 2)]. *)
Inductive ndarray :=
  | Array1 (data : list nat)
  | Array2 (rows : list Row).


(** [arr.size] *)
Definition ndarray_size (arr : ndarray) : nat :=
  match arr with
  | Array1 data => length data
  | Array2 rows => array_size rows
  end.

(** [np.array(l)] for a list [l] of two-element lists: the empty list gives an
    array of one axis, of shape [(0,)]. *)
Definition np_array (l : list Row) : ndarray :=
  match l with
  | [] => Array1 []
  | _ :: _ => Array2 l
  end.

(** [np.zeros((n, 2))]; the entries are zeros (their float type is not
    modelled). *)
Definition np_zeros (n : nat) : ndarray := Array2 (replicate n (0, 0)).

(** The rows of an array of two axes.  The operations below are used on
    [np.array(l)] where its size is not 0, which has two axes; on an array of
    one axis they see no row. *)
Definition ndarray_rows (arr : ndarray) : list Row :=
  match arr with
  | Array1 _ => []
  | Array2 rows => rows
  end.

(** [arr[:, 0]] and [arr[:, 1]] *)
Definition ndarray_column0 (arr : ndarray) : list nat := fst <$> ndarray_rows arr.
Definition ndarray_column1 (arr : ndarray) : list nat := snd <$> ndarray_rows arr.

(** [arr[inds, :]] *)
Definition ndarray_take (arr : ndarray) (inds : list nat) : ndarray :=
  Array2 (take_rows (ndarray_rows arr) inds).

(** [arr.max()] *)
Definition ndarray_max (arr : ndarray) : nat :=
  match arr with
  | Array1 data => max_list data
  | Array2 rows => array_max rows
  end.

(** Lines 204 to 216 of the encoder: the value of [connectivity] when the
    [return] is reached, from the list of rows that the loop has built and
    [len(atom_type)]. *)
Definition connectivity_array
    (mol : Mol) (connectivity0 : list Row) (n_atoms : nat) : result ndarray :=
  let connectivity := np_array connectivity0 in
  if bool_decide (0 < ndarray_size connectivity) then
    let inds :=
      lexsort (ndarray_column1 connectivity) (ndarray_column0 connectivity) in
    let connectivity1 := ndarray_take connectivity inds in
    if bool_decide (Z.of_nat (ndarray_max connectivity1)
                    ≠ Z.of_nat n_atoms - 1)%Z then
      _ ← load_name "convert_nx_to_smiles"%string;
      _ ← load_name "graph"%string;
      Raise (ValueError_unconnected mol)
    else Ok connectivity1
  else Ok (np_zeros 0).

(** ** The encoder on the objects of the notebook *)

(** The objects that a call of the encoder can reach and that outlive it: the
    list objects of integers (such as [atom_types]), the list objects of bond
    types (such as [bond_types]) and the dict objects.  A reference is the key
    of its object; the two vocabularies are passed by reference, so two calls
    with the same vocabularies share these list objects. *)
Record Store (float : Type) := {
  int_lists : gmap nat (list Z);
  bond_lists : gmap nat (list BondType);
  dicts : gmap nat (gmap string (Value float))
}.
Arguments int_lists {float} s.
Arguments bond_lists {float} s.
Arguments dicts {float} s.

(** A computation on the store: it ends with a value or with an exception,
    and the store goes on in both cases. *)
Definition Run (float A : Type) : Type :=
  Store float → result A * Store float.

#[global] Instance run_ret {float} : MRet (Run float) := λ A a σ, (Ok a, σ).
#[global] Instance run_bind {float} : MBind (Run float) := λ A B f m σ,
  match m σ with
  | (Ok a, σ') => f a σ'
  | (Raise e, σ') => (Raise e, σ')
  end.

Section store_model.
Context {float : Type}.

(** A step that does not touch the store. *)
Definition lift {A} (m : result A) : Run float A := λ σ, (m, σ).

(** [l.index(x)] on the list object [l]: the object is read. *)
Definition list_index (l : nat) (x : Z) : Run float nat :=
  λ σ, (index (int_lists σ !!! l) x, σ).

Definition bond_list_index (l : nat) (x : BondType) : Run float nat :=
  λ σ, (index (bond_lists σ !!! l) x, σ).

(** A dict literal: a new dict object in the store. *)
Definition dict_literal (d : gmap string (Value float)) : Run float nat :=
  λ σ, let st := new_dict (dicts σ) d in
       (Ok st.1, {| int_lists := int_lists σ; bond_lists := bond_lists σ;
                    dicts := st.2 |}).

(** [convert_mol_to_dict(mol, atom_types, bond_types)] statement by
    statement, with [atom_types] and [bond_types] references to list objects.
    The lists that the call itself makes ([atom_type], [connectivity],
    [edge_type] and the two lists of indices) are reachable only from the
    call and from the dict it returns; they are values here. *)
Definition convert_mol_to_dict_in_store
    (mol : Mol) (atom_types bond_types : nat) : Run float nat :=
  let atom_type := GetAtomicNum <$> GetAtoms mol in
  atom_type_id ← mapM (list_index atom_types) atom_type;
  let '(connectivity0, edge_type) := bond_loop (GetBonds mol) in
  edge_type_id ← mapM (bond_list_index bond_types) edge_type;
  connectivity ← lift (connectivity_array mol connectivity0 (length atom_type));
  dict_literal
    (as_dict {| n_atom := length atom_type; n_bond := length edge_type;
                atom := atom_type_id; bond := edge_type_id;
                connectivity := ndarray_rows connectivity |}).

End store_model.

(** ** Examples from the notebook *)

Definition H := {| GetAtomicNum := 1 |}.
Definition C := {| GetAtomicNum := 6 |}.
Definition O := {| GetAtomicNum := 8 |}.
Definition He := {| GetAtomicNum := 2 |}.

Definition mk_bond (a b : nat) (t : BondType) : Bond :=
  {| GetBeginAtomIdx := a; GetEndAtomIdx := b; GetBondType := t |}.

Definition F := {| GetAtomicNum := 9 |}.

(** [Chem.AddHs(Chem.MolFromSmiles('C'))] *)
Definition methane : Mol :=
  {| GetAtoms := [C; H; H; H; H];
     GetBonds := [mk_bond 0 1 SINGLE; mk_bond 0 2 SINGLE;
                  mk_bond 0 3 SINGLE; mk_bond 0 4 SINGLE] |}.

(** The vocabularies that the fifth cell prints. *)
Definition qm9_atom_types : list Z := [1; 6; 7; 8; 9]%Z.
Definition qm9_bond_types : list BondType := [SINGLE; DOUBLE; TRIPLE; AROMATIC].

(** The record that the seventh cell prints for methane. *)
Definition methane_encoded : EncodedRecord :=
  {| n_atom := 5; n_bond := 8; atom := [1; 0; 0; 0; 0];
     bond := [0; 0; 0; 0; 0; 0; 0; 0];
     connectivity := [(0,1); (0,2); (0,3); (0,4); (1,0); (2,0); (3,0); (4,0)] |}.

(** [Chem.AddHs(Chem.MolFromSmiles('C(C)=O'))], acetaldehyde. *)
Definition acetaldehyde : Mol :=
  {| GetAtoms := [C; C; O; H; H; H; H];
     GetBonds := [mk_bond 0 1 SINGLE; mk_bond 0 2 DOUBLE; mk_bond 0 3 SINGLE;
                  mk_bond 1 4 SINGLE; mk_bond 1 5 SINGLE; mk_bond 1 6 SINGLE] |}.

(** [Chem.AddHs(Chem.MolFromSmiles('[F-].O=C=O'))]: the fluoride ion is atom 0
    and has no bond; no hydrogen is added. *)
Definition fluoride_then_CO2 : Mol :=
  {| GetAtoms := [F; O; C; O];
     GetBonds := [mk_bond 1 2 DOUBLE; mk_bond 2 3 DOUBLE] |}.

(** [Chem.AddHs(Chem.MolFromSmiles('O=C=O.[F-]'))]: the same molecule with the
    fluoride ion as the last atom. *)
Definition CO2_then_fluoride : Mol :=
  {| GetAtoms := [O; C; O; F];
     GetBonds := [mk_bond 0 1 DOUBLE; mk_bond 1 2 DOUBLE] |}.

(** A lone helium atom, [Chem.AddHs(Chem.MolFromSmiles('[He]'))]. *)
Definition helium : Mol := {| GetAtoms := [He]; GetBonds := [] |}.

(** A lone fluoride ion, [Chem.AddHs(Chem.MolFromSmiles('[F-]'))]. *)
Definition fluoride : Mol := {| GetAtoms := [F]; GetBonds := [] |}.

Definition fluoride_encoded : EncodedRecord :=
  {| n_atom := 1; n_bond := 0; atom := [4]; bond := []; connectivity := [] |}.

(** ** The cells that build the data set *)

(** The eighth cell,
    [data['mol'].apply(lambda x: convert_mol_to_dict(x, atom_types, bond_types))]:
    the molecules are encoded in order and the first exception ends the cell. *)
Definition apply_convert_mol_to_dict
    (mols : list Mol) (atom_types : list Z) (bond_types : list BondType)
    : result (list EncodedRecord) :=
  mapM (λ x, convert_mol_to_dict x atom_types bond_types) mols.

(** The fifth and the eighth cell: the vocabularies are built from the column
    of molecules, and the same column is encoded with them. *)
Definition encode_corpus (mols : list Mol) : result (list EncodedRecord) :=
  let '(atom_types, bond_types) := make_type_lookup_tables mols in
  apply_convert_mol_to_dict mols atom_types bond_types.

Section dataset_dicts.
Context {float : Type}.

(** The eighth cell on the heap: every call returns a new dict object, and
    the column [data['dict']] holds the references in the order of the rows. *)
Fixpoint apply_convert_on_heap
    (h : gmap nat (gmap string (Value float))) (mols : list Mol)
    (atom_types : list Z) (bond_types : list BondType)
    : result (list nat * gmap nat (gmap string (Value float))) :=
  match mols with
  | [] => Ok ([], h)
  | mol :: mols' =>
      st ← call_convert_mol_to_dict h mol atom_types bond_types;
      st' ← apply_convert_on_heap st.2 mols' atom_types bond_types;
      Ok (st.1 :: st'.1, st'.2)
  end.

(** The dict that is serialised for [entry]: the dict that the entry refers
    to in [h], with the two labels of the entry. *)
Definition labelled_dict
    (h : gmap nat (gmap string (Value float))) (entry : Entry float)
    : gmap string (Value float) :=
  with_labels (entry_u0_atom entry) (entry_bandgap entry)
              (h !!! entry_dict entry).

End dataset_dicts.

(** The records written for the entries [es] when the dicts are those of
    [h]: one per entry, in the order of the entries. *)
Definition written_records {float tfrecord : Type}
    (make_tfrecord : gmap string (Value float) → tfrecord)
    (h : gmap nat (gmap string (Value float))) (es : list (Entry float))
    : list tfrecord :=
  (λ e, make_tfrecord (labelled_dict h e)) <$> es.

(** The number of directed rows that leave atom [i]. *)
Definition rows_from (i : nat) (rows : list Row) : nat :=
  length (filter (λ r : Row, r.1 = i) rows).

(** The number of bond ends at atom [i]. *)
Definition degree (mol : Mol) (i : nat) : nat :=
  length (filter (λ b, GetBeginAtomIdx b = i) (GetBonds mol)) +
  length (filter (λ b, GetEndAtomIdx b = i) (GetBonds mol)).

(** [Chem.AddHs(Chem.MolFromSmiles('O'))], water. *)
Definition water : Mol :=
  {| GetAtoms := [O; H; H];
     GetBonds := [mk_bond 0 1 SINGLE; mk_bond 0 2 SINGLE] |}.

(** Two stored dicts and three rows of the data frame; [row0'] refers to the
    dict of [row0]. *)
Definition two_dicts : gmap nat (gmap string (Value Q)) :=
  <[0 := as_dict methane_encoded]> (<[1 := as_dict fluoride_encoded]> ∅).

Definition row0 : Entry Q :=
  {| entry_dict := 0; entry_u0_atom := (-6 # 10)%Q;
     entry_bandgap := (4 # 10)%Q |}.

Definition row1 : Entry Q :=
  {| entry_dict := 1; entry_u0_atom := (-1 # 10)%Q;
     entry_bandgap := (7 # 10)%Q |}.

Definition row0' : Entry Q :=
  {| entry_dict := 0; entry_u0_atom := (-2 # 10)%Q;
     entry_bandgap := (9 # 10)%Q |}.

(** A store with the two vocabularies of the notebook and no dict. *)
Definition qm9_store : Store Q :=
  {| int_lists := {[ 0 := qm9_atom_types ]};
     bond_lists := {[ 1 := qm9_bond_types ]};
     dicts := ∅ |}.

(** ** Facts about the primitives *)

Section stable_sort_facts.
Context {A : Type} (le : A → A → bool).

Lemma insert_sorted_perm x l : insert_sorted le x l ≡ₚ x :: l.
Proof.
  induction l as [|y l IH]; simpl; [done|].
  destruct (le x y); [done|].
  rewrite IH. apply perm_swap.
Qed.

Lemma sorted_perm l : sorted le l ≡ₚ l.
Proof.
  induction l as [|x l IH]; simpl; [done|].
  rewrite insert_sorted_perm. by rewrite IH.
Qed.

Lemma sorted_length l : length (sorted le l) = length l.
Proof. apply Permutation_length, sorted_perm. Qed.

Lemma sorted_elem_of x l : x ∈ sorted le l ↔ x ∈ l.
Proof. by rewrite sorted_perm. Qed.

Lemma sorted_NoDup l : NoDup l → NoDup (sorted le l).
Proof. by rewrite sorted_perm. Qed.

Hypothesis le_total : ∀ x y, le x y = true ∨ le y x = true.

Lemma insert_sorted_Sorted x l :
  Sorted (λ a b, le a b = true) l →
  Sorted (λ a b, le a b = true) (insert_sorted le x l).
Proof.
  induction 1 as [|y l Hl IH Hhd]; simpl.
  - repeat constructor.
  - destruct (le x y) eqn:Hxy.
    + repeat constructor; done.
    + constructor; [done|].
      destruct (le_total x y) as [?|Hyx]; [congruence|].
      destruct Hhd as [|z l' Hyz]; simpl.
      * by constructor.
      * destruct (le x z); by constructor.
Qed.

Lemma sorted_Sorted l : Sorted (λ a b, le a b = true) (sorted le l).
Proof.
  induction l as [|x l IH]; simpl; [constructor|].
  by apply insert_sorted_Sorted.
Qed.
End stable_sort_facts.

(** Adjacent elements of a [Sorted] list are related. *)
Lemma Sorted_adjacent {A} (R : relation A) (l : list A) i x y :
  Sorted R l → l !! i = Some x → l !! S i = Some y → R x y.
Proof.
  intros Hl. revert i. induction Hl as [|a l Hl IH Hhd]; intros i Hx Hy.
  - done.
  - destruct i as [|i]; simpl in *.
    + simplify_eq. destruct Hhd; simplify_eq/=. done.
    + eauto.
Qed.

Lemma result_bind_Ok {A B} (f : A → result B) (a : A) : Ok a ≫= f = f a.
Proof. reflexivity. Qed.

Section mapM_result.
Context {A B : Type} (f : A → result B).

Lemma mapM_Ok (l : list A) (k : list B) :
  mapM f l = Ok k ↔ Forall2 (λ x y, f x = Ok y) l k.
Proof.
  revert k. induction l as [|x l IH]; intros k; simpl.
  - split.
    + intros [= <-]. constructor.
    + by inversion 1.
  - unfold mbind, result_bind, mret, result_ret.
    destruct (f x) as [y|e] eqn:Hfx.
    + destruct (mapM f l) as [k'|e'] eqn:Hm.
      * split.
        -- intros [= <-]. constructor; [exact Hfx|]. by apply IH.
        -- inversion 1 as [|? y' ? k'' Hy Hk]; subst.
           apply IH in Hk. congruence.
      * split; [done|].
        inversion 1 as [|? y' ? k'' Hy Hk]; subst.
        apply IH in Hk. done.
    + split; [done|]. inversion 1; subst. congruence.
Qed.

Lemma mapM_Ok_length l k : mapM f l = Ok k → length k = length l.
Proof. rewrite mapM_Ok. intros Hl. symmetry. by eapply Forall2_length. Qed.

Lemma mapM_Ok_lookup l k i x :
  mapM f l = Ok k → l !! i = Some x → ∃ y, k !! i = Some y ∧ f x = Ok y.
Proof.
  rewrite mapM_Ok. intros Hl Hx.
  destruct (Forall2_lookup_l _ _ _ _ _ Hl Hx) as (y & ? & ?). eauto.
Qed.

Lemma mapM_is_Ok l : Forall (λ x, is_Ok (f x)) l → is_Ok (mapM f l).
Proof.
  induction 1 as [|x l [y Hy] _ [k Hk]].
  - by exists [].
  - exists (y :: k). apply mapM_Ok. constructor; [done|]. by apply mapM_Ok.
Qed.

Lemma mapM_Raise l e :
  mapM f l = Raise e → ∃ x, x ∈ l ∧ f x = Raise e.
Proof.
  induction l as [|x l IH]; simpl; [done|].
  unfold mbind, result_bind, mret, result_ret.
  destruct (f x) as [y|e'] eqn:Hfx.
  - destruct (mapM f l) as [k'|e''] eqn:Hm; [done|].
    intros [= ->]. destruct IH as (x' & ? & ?); [done|].
    exists x'. split; [by right|done].
  - intros [= ->]. exists x. split; [by left|done].
Qed.
End mapM_result.

Section index_facts.
Context {A : Type} `{EqDecision A}.

Lemma index_Ok (l : list A) x i :
  index l x = Ok i ↔ l !! i = Some x ∧ ∀ j, j < i → l !! j ≠ Some x.
Proof.
  unfold index.
  destruct (list_find (λ y, y = x) l) as [[i' y]|] eqn:Hf.
  - apply list_find_Some in Hf as (Hl & -> & Hfirst). split.
    + intros [= <-]. split; [done|]. intros j Hj Hlj. by eapply Hfirst.
    + intros [Hi Hmin]. f_equal.
      destruct (lt_eq_lt_dec i i') as [[Hlt| ->]|Hgt]; [|done|].
      * exfalso. by eapply Hfirst.
      * exfalso. by eapply Hmin.
  - split; [done|]. intros [Hi _].
    apply list_find_None in Hf.
    apply list_elem_of_lookup_2 in Hi.
    rewrite Forall_forall in Hf. by apply Hf in Hi.
Qed.

Lemma index_lookup (l : list A) x i : index l x = Ok i → l !! i = Some x.
Proof. rewrite index_Ok. tauto. Qed.

Lemma index_is_Ok (l : list A) x : x ∈ l → is_Ok (index l x).
Proof.
  intros Hx. unfold index.
  destruct (list_find (λ y, y = x) l) as [[i' y]|] eqn:Hf.
  - by eexists.
  - apply list_find_None in Hf. rewrite Forall_forall in Hf.
    by apply Hf in Hx.
Qed.

Lemma index_Raise (l : list A) x e :
  index l x = Raise e → e = ValueError_not_in_list ∧ x ∉ l.
Proof.
  unfold index.
  destruct (list_find (λ y, y = x) l) as [[i' y]|] eqn:Hf; [done|].
  intros [= <-]. split; [done|].
  apply list_find_None in Hf. rewrite Forall_forall in Hf.
  intros Hx. by apply Hf in Hx.
Qed.
End index_facts.

Section sorted_by_key.
Context {A : Type} (key : A → Z).
Hypothesis key_inj : ∀ a b, key a = key b → a = b.

Lemma leb_by_total a b : leb_by key a b = true ∨ leb_by key b a = true.
Proof. unfold leb_by. rewrite !Z.leb_le. lia. Qed.

Lemma leb_by_trans : Transitive (λ a b, leb_by key a b = true).
Proof. intros a b c. unfold leb_by. rewrite !Z.leb_le. lia. Qed.

Lemma leb_by_antisymm : AntiSymm (=) (λ a b, leb_by key a b = true).
Proof.
  intros a b. unfold leb_by. rewrite !Z.leb_le. intros ??.
  apply key_inj. lia.
Qed.

(** A sorted list without duplicates is strictly ascending. *)
Lemma sorted_strict l :
  NoDup l → StronglySorted (lt_by key) (sorted (leb_by key) l).
Proof.
  intros Hnd%(sorted_NoDup (leb_by key)).
  pose proof (sorted_Sorted (leb_by key) leb_by_total l) as Hs.
  apply (@Sorted_StronglySorted _ _ leb_by_trans) in Hs.
  induction Hs as [|x l' Hs IH Hall]; [constructor|].
  apply NoDup_cons in Hnd as [Hx Hnd].
  constructor; [by apply IH|].
  rewrite Forall_forall in Hall. apply Forall_forall. intros y Hy.
  specialize (Hall y Hy). unfold leb_by in Hall. apply Z.leb_le in Hall.
  assert (key x ≠ key y) by (intros ->%key_inj; done).
  unfold lt_by. lia.
Qed.

(** The sorted list does not depend on the order of the input. *)
Lemma sorted_order_independent l1 l2 :
  l1 ≡ₚ l2 → sorted (leb_by key) l1 = sorted (leb_by key) l2.
Proof.
  intros Hp.
  apply (@Sorted_unique _ _ leb_by_trans leb_by_antisymm).
  - apply sorted_Sorted, leb_by_total.
  - apply sorted_Sorted, leb_by_total.
  - by rewrite !sorted_perm.
Qed.
End sorted_by_key.

Lemma bond_value_inj a b : bond_value a = bond_value b → a = b.
Proof. by destruct a, b. Qed.

(** ** Facts about the encoder *)

Lemma bond_loop_eq bonds :
  bond_loop bonds = (directed_rows bonds, directed_types bonds).
Proof.
  unfold bond_loop.
  enough (∀ acc : list Row * list BondType,
    fold_left
      (λ acc bond,
         let a := GetBeginAtomIdx bond in
         let b := GetEndAtomIdx bond in
         let b_type := GetBondType bond in
         (acc.1 ++ [(a, b)] ++ [(b, a)], acc.2 ++ [b_type] ++ [b_type]))
      bonds acc
    = (acc.1 ++ directed_rows bonds, acc.2 ++ directed_types bonds)) as Hgen
    by apply Hgen.
  induction bonds as [|bond bonds IH]; intros [rows types]; simpl.
  - by rewrite !app_nil_r.
  - rewrite IH. simpl. by rewrite <-!app_assoc.
Qed.

Lemma directed_rows_length bonds : length (directed_rows bonds) = 2 * length bonds.
Proof. induction bonds as [|b bonds IH]; simpl; lia. Qed.

Lemma directed_types_length bonds : length (directed_types bonds) = 2 * length bonds.
Proof. induction bonds as [|b bonds IH]; simpl; lia. Qed.

Lemma div2_SS k : S (S k) / 2 = S (k / 2).
Proof.
  replace (S (S k)) with (k + 1 * 2) by lia.
  rewrite Nat.div_add by lia. lia.
Qed.

Lemma directed_types_lookup bonds k :
  directed_types bonds !! k = GetBondType <$> bonds !! (k / 2).
Proof.
  revert k. induction bonds as [|b bonds IH]; intros k; [done|].
  destruct k as [|[|k]]; [done..|].
  rewrite div2_SS. simpl. apply IH.
Qed.

Lemma directed_rows_lookup bonds k :
  directed_rows bonds !! k =
  (λ bond, if Nat.even k
           then (GetBeginAtomIdx bond, GetEndAtomIdx bond)
           else (GetEndAtomIdx bond, GetBeginAtomIdx bond)) <$> bonds !! (k / 2).
Proof.
  revert k. induction bonds as [|b bonds IH]; intros k; [done|].
  destruct k as [|[|k]]; [done..|].
  rewrite div2_SS. simpl. apply IH.
Qed.

Lemma lexsort_perm secondary primary :
  lexsort secondary primary ≡ₚ seq 0 (length primary).
Proof. apply sorted_perm. Qed.

Lemma sorted_rows_length rows : length (sorted_rows rows) = length rows.
Proof.
  unfold sorted_rows, take_rows, lexsort.
  by rewrite length_fmap, sorted_length, length_seq, length_fmap.
Qed.

Lemma sorted_rows_nil : sorted_rows [] = [].
Proof. reflexivity. Qed.

Lemma take_rows_seq (rows : list Row) :
  take_rows rows (seq 0 (length rows)) = rows.
Proof.
  unfold take_rows. apply list_eq. intros i.
  rewrite list_lookup_fmap.
  destruct (rows !! i) as [r|] eqn:Hr.
  - rewrite lookup_seq_lt by (by eapply lookup_lt_Some). simpl.
    f_equal. by apply list_lookup_total_correct.
  - rewrite lookup_seq_ge by (by apply lookup_ge_None). done.
Qed.

(** Sorting permutes the rows. *)
Lemma sorted_rows_perm rows : sorted_rows rows ≡ₚ rows.
Proof.
  transitivity (take_rows rows (seq 0 (length rows)));
    [|by rewrite take_rows_seq].
  unfold sorted_rows, take_rows. apply fmap_Permutation.
  by rewrite lexsort_perm, length_fmap.
Qed.

Lemma load_convert_nx_to_smiles :
  load_name "convert_nx_to_smiles" = Raise (NameError "convert_nx_to_smiles").
Proof. reflexivity. Qed.

(** When the encoder returns, and what. *)
Lemma convert_mol_to_dict_Ok mol atom_types bond_types r :
  convert_mol_to_dict mol atom_types bond_types = Ok r ↔
  ∃ atom_type_id edge_type_id,
    mapM (index atom_types) (GetAtomicNum <$> GetAtoms mol) = Ok atom_type_id ∧
    mapM (index bond_types) (directed_types (GetBonds mol)) = Ok edge_type_id ∧
    (GetBonds mol ≠ [] →
       Z.of_nat (array_max (sorted_rows (directed_rows (GetBonds mol))))
       = (Z.of_nat (length (GetAtoms mol)) - 1)%Z) ∧
    r = {| n_atom := length (GetAtoms mol);
           n_bond := 2 * length (GetBonds mol);
           atom := atom_type_id; bond := edge_type_id;
           connectivity := sorted_rows (directed_rows (GetBonds mol)) |}.
Proof.
  unfold convert_mol_to_dict. rewrite bond_loop_eq.
  unfold mbind, result_bind.
  rewrite length_fmap, directed_types_length.
  fold (sorted_rows (directed_rows (GetBonds mol))).
  destruct (mapM (index atom_types) _) as [aids|e1];
    [|split; [done|intros (? & ? & ? & _); done]].
  destruct (mapM (index bond_types) _) as [eids|e2];
    [|split; [done|intros (? & ? & _ & ? & _); done]].
  unfold array_size. rewrite directed_rows_length.
  destruct (GetBonds mol) as [|b bonds] eqn:Hbonds.
  - simpl. split.
    + intros [= <-]. exists aids, eids. done.
    + intros (? & ? & [= <-] & [= <-] & _ & ->). done.
  - rewrite bool_decide_eq_true_2 by (simpl; lia).
    case_bool_decide as Hmax.
    + rewrite load_convert_nx_to_smiles. split; [done|].
      intros (? & ? & _ & _ & Hm & _). destruct Hmax. by apply Hm.
    + split.
      * intros [= <-]. exists aids, eids. done.
      * intros (? & ? & [= <-] & [= <-] & _ & ->). done.
Qed.

(** The branch taken when the check on the largest index fails. *)
Lemma convert_mol_to_dict_unconnected mol atom_types bond_types :
  is_Ok (mapM (index atom_types) (GetAtomicNum <$> GetAtoms mol)) →
  is_Ok (mapM (index bond_types) (directed_types (GetBonds mol))) →
  GetBonds mol ≠ [] →
  Z.of_nat (array_max (sorted_rows (directed_rows (GetBonds mol))))
    ≠ (Z.of_nat (length (GetAtoms mol)) - 1)%Z →
  convert_mol_to_dict mol atom_types bond_types
  = Raise (NameError "convert_nx_to_smiles").
Proof.
  intros [aids Ha] [eids He] Hbonds Hmax.
  unfold convert_mol_to_dict. rewrite bond_loop_eq. cbv beta iota zeta.
  rewrite Ha, result_bind_Ok, He, result_bind_Ok, length_fmap.
  fold (sorted_rows (directed_rows (GetBonds mol))).
  unfold array_size. rewrite directed_rows_length.
  rewrite bool_decide_eq_true_2
    by (destruct (GetBonds mol); [done|simpl; lia]).
  rewrite bool_decide_eq_true_2 by done.
  by rewrite load_convert_nx_to_smiles.
Qed.

(** ** The order of the connectivity table *)

Lemma key_leb_total secondary primary i j :
  key_leb secondary primary i j = true ∨ key_leb secondary primary j i = true.
Proof.
  unfold key_leb. simpl.
  destruct (Nat.ltb_spec (primary !!! i) (primary !!! j)); [by left|].
  destruct (Nat.ltb_spec (primary !!! j) (primary !!! i)); [by right|].
  assert (primary !!! i = primary !!! j) as -> by lia.
  rewrite Nat.eqb_refl. simpl.
  destruct (Nat.leb_spec (secondary !!! i) (secondary !!! j)); [by left|].
  right. apply Nat.leb_le. lia.
Qed.

Lemma fst_lookup_total (rows : list Row) i :
  (fst <$> rows) !!! i = (rows !!! i).1.
Proof.
  rewrite !list_lookup_total_alt, list_lookup_fmap.
  by destruct (_ !! _).
Qed.

Lemma snd_lookup_total (rows : list Row) i :
  (snd <$> rows) !!! i = (rows !!! i).2.
Proof.
  rewrite !list_lookup_total_alt, list_lookup_fmap.
  by destruct (_ !! _).
Qed.

Lemma key_leb_row_le (rows : list Row) i j :
  key_leb (snd <$> rows) (fst <$> rows) i j = true →
  row_le (rows !!! i) (rows !!! j).
Proof.
  unfold key_leb, row_le. simpl.
  rewrite !fst_lookup_total, !snd_lookup_total.
  intros [Hlt|[Heq Hle]%andb_prop]%orb_prop.
  - left. by apply Nat.ltb_lt.
  - right. split; [by apply Nat.eqb_eq|by apply Nat.leb_le].
Qed.

Lemma sorted_rows_Sorted rows : Sorted row_le (sorted_rows rows).
Proof.
  unfold sorted_rows, take_rows, lexsort.
  eapply Sorted_fmap; [|apply sorted_Sorted, key_leb_total].
  intros i j. apply key_leb_row_le.
Qed.

(** ** Properties of an encoded record *)

Example methane_record :
  convert_mol_to_dict methane qm9_atom_types qm9_bond_types = Ok methane_encoded.
Proof. vm_compute. reflexivity. Qed.

(** C4. For every molecule that is encoded, [atom] has [n_atom] entries, [bond]
    and [connectivity] have [n_bond] entries each, and [n_bond] is twice the
    number of bonds of the molecule, so it is even. *)
Theorem convert_mol_to_dict_lengths mol atom_types bond_types r :
  convert_mol_to_dict mol atom_types bond_types = Ok r →
  n_atom r = length (GetAtoms mol) ∧
  length (atom r) = n_atom r ∧
  length (bond r) = n_bond r ∧
  length (connectivity r) = n_bond r ∧
  n_bond r = 2 * length (GetBonds mol) ∧
  Nat.even (n_bond r) = true.
Proof.
  intros (aids & eids & Ha & He & _ & ->)%convert_mol_to_dict_Ok. simpl.
  apply mapM_Ok_length in Ha, He.
  rewrite length_fmap in Ha. rewrite directed_types_length in He.
  rewrite sorted_rows_length, directed_rows_length.
  repeat split; try done.
  rewrite Nat.add_0_r. apply Nat.even_spec. by exists (length (GetBonds mol)); lia.
Qed.

Lemma convert_mol_to_dict_lengths_witness :
  n_atom methane_encoded = length (GetAtoms methane) ∧
  length (atom methane_encoded) = n_atom methane_encoded ∧
  length (bond methane_encoded) = n_bond methane_encoded ∧
  length (connectivity methane_encoded) = n_bond methane_encoded ∧
  n_bond methane_encoded = 2 * length (GetBonds methane) ∧
  Nat.even (n_bond methane_encoded) = true.
Proof.
  apply (convert_mol_to_dict_lengths methane qm9_atom_types qm9_bond_types).
  vm_compute. reflexivity.
Defined.

(** C5. For every molecule that is encoded, the connectivity table is sorted:
    of two adjacent rows the first has the smaller source, or the same source
    and a target that is not larger. *)
Theorem convert_mol_to_dict_connectivity_sorted mol atom_types bond_types r :
  convert_mol_to_dict mol atom_types bond_types = Ok r →
  ∀ i r1 r2,
    connectivity r !! i = Some r1 →
    connectivity r !! S i = Some r2 →
    r1.1 ≤ r2.1 ∧ (r1.1 = r2.1 → r1.2 ≤ r2.2).
Proof.
  intros (aids & eids & _ & _ & _ & ->)%convert_mol_to_dict_Ok. simpl.
  intros i r1 r2 H1 H2.
  pose proof (Sorted_adjacent _ _ _ _ _ (sorted_rows_Sorted _) H1 H2) as Hle.
  unfold row_le in Hle. lia.
Qed.

Lemma convert_mol_to_dict_connectivity_sorted_witness :
  connectivity methane_encoded !! 3 = Some (0, 4) ∧
  connectivity methane_encoded !! 4 = Some (1, 0) ∧
  (0, 4).1 ≤ (1, 0).1 ∧ ((0, 4).1 = (1, 0).1 → (0, 4).2 ≤ (1, 0).2).
Proof.
  split; [reflexivity|]. split; [reflexivity|].
  apply (convert_mol_to_dict_connectivity_sorted
           methane qm9_atom_types qm9_bond_types methane_encoded
           methane_record 3 (0, 4) (1, 0)); reflexivity.
Defined.

(** ** The check on the largest atom index *)

Lemma flat_map_perm {A B} (f : A → list B) l1 l2 :
  l1 ≡ₚ l2 → flat_map f l1 ≡ₚ flat_map f l2.
Proof.
  induction 1 as [|x l1 l2 _ IH|x y l|l1 l2 l3 _ IH1 _ IH2]; simpl.
  - done.
  - by rewrite IH.
  - rewrite !app_assoc. by rewrite (Permutation_app_comm (f y) (f x)).
  - by rewrite IH1.
Qed.

Lemma array_max_sorted_rows rows : array_max (sorted_rows rows) = array_max rows.
Proof.
  unfold array_max, array_entries.
  apply max_list_with_Permutation_proper, flat_map_perm, sorted_rows_perm.
Qed.

Lemma elem_of_directed_entries bonds i :
  i ∈ array_entries (directed_rows bonds) ↔
  ∃ b, b ∈ bonds ∧ (GetBeginAtomIdx b = i ∨ GetEndAtomIdx b = i).
Proof.
  unfold array_entries, directed_rows.
  rewrite list_elem_of_In, in_flat_map. split.
  - intros (r & (b & Hb & Hr)%in_flat_map & Hi).
    exists b. rewrite list_elem_of_In. split; [done|].
    simpl in Hr, Hi.
    destruct Hr as [<-|[<-|[]]]; simpl in Hi; destruct Hi as [?|[?|[]]]; auto.
  - intros (b & Hb%list_elem_of_In & Hi).
    exists (GetBeginAtomIdx b, GetEndAtomIdx b). split.
    + apply in_flat_map. exists b. split; [done|]. by left.
    + simpl. destruct Hi; auto.
Qed.

(** With bonds in range, the largest index of the table is [n_atom - 1]
    exactly when the last atom is bonded. *)
Lemma array_max_last_atom mol :
  GetBonds mol ≠ [] → bonds_in_range mol →
  Z.of_nat (array_max (sorted_rows (directed_rows (GetBonds mol))))
    = (Z.of_nat (length (GetAtoms mol)) - 1)%Z
  ↔ bonded mol (length (GetAtoms mol) - 1).
Proof.
  intros Hne Hrange. rewrite array_max_sorted_rows. unfold array_max, bonded.
  set (es := array_entries (directed_rows (GetBonds mol))).
  assert (es ≠ []) as Hes.
  { unfold es. by destruct (GetBonds mol). }
  assert (∀ x, x ∈ es → x < length (GetAtoms mol)) as Hlt.
  { intros x (b & Hb & Hx)%elem_of_directed_entries.
    destruct (Hrange b Hb). destruct Hx; by subst. }
  pose proof (max_list_elem_of es Hes) as Hin.
  split.
  - intros Hmax. apply elem_of_directed_entries. fold es.
    replace (length (GetAtoms mol) - 1) with (max_list es) by lia. done.
  - intros Hb%elem_of_directed_entries. fold es in Hb.
    apply max_list_elem_of_le in Hb. apply Hlt in Hin. lia.
Qed.

Lemma in_vocabulary_lookups mol atom_types bond_types :
  in_vocabulary mol atom_types bond_types →
  is_Ok (mapM (index atom_types) (GetAtomicNum <$> GetAtoms mol)) ∧
  is_Ok (mapM (index bond_types) (directed_types (GetBonds mol))).
Proof.
  intros [Hatoms Hbonds]. split; apply mapM_is_Ok, Forall_forall.
  - intros z (a & -> & Ha)%list_elem_of_fmap. by apply index_is_Ok, Hatoms.
  - intros t Ht. apply index_is_Ok.
    apply list_elem_of_In, in_flat_map in Ht as (b & Hb%list_elem_of_In & Ht).
    simpl in Ht. destruct Ht as [<-|[<-|[]]]; by apply Hbonds.
Qed.

(** With the vocabularies covering the molecule, the encoder returns as soon
    as the check on the largest index passes or is skipped. *)
Lemma convert_mol_to_dict_is_Ok mol atom_types bond_types :
  in_vocabulary mol atom_types bond_types →
  (GetBonds mol ≠ [] →
     Z.of_nat (array_max (sorted_rows (directed_rows (GetBonds mol))))
     = (Z.of_nat (length (GetAtoms mol)) - 1)%Z) →
  is_Ok (convert_mol_to_dict mol atom_types bond_types).
Proof.
  intros [[aids Ha] [eids He]]%in_vocabulary_lookups Hmax.
  eexists. apply convert_mol_to_dict_Ok. exists aids, eids. done.
Qed.

(** C3, as amended.  For a molecule with at least one bond, whose bonds join
    atoms of the molecule and whose atom and bond types are all in the
    vocabularies, a record is returned exactly when the atom of the highest
    index is an end of some bond.  An unbonded atom of a lower index goes
    unnoticed. *)
Theorem convert_mol_to_dict_checks_last_atom mol atom_types bond_types :
  GetBonds mol ≠ [] →
  bonds_in_range mol →
  in_vocabulary mol atom_types bond_types →
  is_Ok (convert_mol_to_dict mol atom_types bond_types)
  ↔ bonded mol (length (GetAtoms mol) - 1).
Proof.
  intros Hne Hrange Hvoc. rewrite <-array_max_last_atom by done. split.
  - intros [r (_ & _ & _ & _ & Hmax & _)%convert_mol_to_dict_Ok]. by apply Hmax.
  - intros Hmax. by apply convert_mol_to_dict_is_Ok.
Qed.

Lemma fluoride_then_CO2_in_vocabulary :
  in_vocabulary fluoride_then_CO2 qm9_atom_types qm9_bond_types.
Proof.
  split; intros x Hx; simpl in Hx;
    repeat (apply elem_of_cons in Hx as [->|Hx]);
    try (by apply elem_of_nil in Hx); vm_compute; set_solver.
Qed.

Lemma convert_mol_to_dict_checks_last_atom_witness :
  is_Ok (convert_mol_to_dict fluoride_then_CO2 qm9_atom_types qm9_bond_types)
  ↔ bonded fluoride_then_CO2 (length (GetAtoms fluoride_then_CO2) - 1).
Proof.
  apply (convert_mol_to_dict_checks_last_atom
           fluoride_then_CO2 qm9_atom_types qm9_bond_types).
  - simpl. discriminate.
  - intros b Hb. simpl in Hb.
    repeat (apply elem_of_cons in Hb as [->|Hb]);
      try (by apply elem_of_nil in Hb); simpl; lia.
  - exact fluoride_then_CO2_in_vocabulary.
Defined.

(** C3, as stated, fails: [fluoride_then_CO2] has four atoms, two bonds and an
    atom without any bond, and it is encoded without an error. *)
Lemma unbonded_first_atom_is_encoded :
  1 < length (GetAtoms fluoride_then_CO2) ∧
  GetBonds fluoride_then_CO2 ≠ [] ∧
  ¬ bonded fluoride_then_CO2 0 ∧
  convert_mol_to_dict fluoride_then_CO2 qm9_atom_types qm9_bond_types
  = Ok {| n_atom := 4; n_bond := 4; atom := [4; 3; 1; 3];
          bond := [1; 1; 1; 1];
          connectivity := [(1,2); (2,1); (2,3); (3,2)] |} ∧
  ¬ ∃ m, convert_mol_to_dict fluoride_then_CO2 qm9_atom_types qm9_bond_types
         = Raise (ValueError_unconnected m).
Proof.
  split_and!.
  - simpl. lia.
  - simpl. discriminate.
  - intros (b & Hb & Hend). simpl in Hb.
    repeat (apply elem_of_cons in Hb as [->|Hb]);
      try (by apply elem_of_nil in Hb); simpl in Hend; lia.
  - vm_compute. reflexivity.
  - intros [m Hm]. vm_compute in Hm. discriminate.
Qed.

(** C2.  [CO2_then_fluoride] has bonds, its largest bonded index is 2 and it
    has 4 atoms.  The branch of the failed check looks up
    [convert_nx_to_smiles], which the notebook never binds: the call ends in a
    [NameError], and the [ValueError] that names the molecule is not raised. *)
Theorem unbonded_last_atom_raises_NameError :
  GetBonds CO2_then_fluoride ≠ [] ∧
  array_max (sorted_rows (directed_rows (GetBonds CO2_then_fluoride))) = 2 ∧
  length (GetAtoms CO2_then_fluoride) = 4 ∧
  convert_mol_to_dict CO2_then_fluoride qm9_atom_types qm9_bond_types
  = Raise (NameError "convert_nx_to_smiles") ∧
  ¬ ∃ m, convert_mol_to_dict CO2_then_fluoride qm9_atom_types qm9_bond_types
         = Raise (ValueError_unconnected m).
Proof.
  split_and!.
  - simpl. discriminate.
  - vm_compute. reflexivity.
  - reflexivity.
  - vm_compute. reflexivity.
  - intros [m Hm]. vm_compute in Hm. discriminate.
Qed.

(** ** The order of the bond array *)

(** C1.  The rows of [connectivity] are sorted and [bond] is left in the order
    of emission: for acetaldehyde row 1 of the table is the double bond
    between atoms 0 and 2, and entry 1 of [bond] is the index of SINGLE. *)
Theorem bond_not_reordered_with_connectivity :
  ∃ r,
    convert_mol_to_dict acetaldehyde qm9_atom_types qm9_bond_types = Ok r ∧
    connectivity r =
      [(0,1); (0,2); (0,3); (1,0); (1,4); (1,5); (1,6);
       (2,0); (3,0); (4,1); (5,1); (6,1)] ∧
    bond r = [0; 0; 1; 1; 0; 0; 0; 0; 0; 0; 0; 0] ∧
    bond_of_row acetaldehyde (0, 2) = Some (mk_bond 0 2 DOUBLE) ∧
    index qm9_bond_types DOUBLE = Ok 1 ∧
    ¬ bond_matches_row acetaldehyde qm9_bond_types r 1.
Proof.
  eexists. split; [vm_compute; reflexivity|]. simpl.
  split_and!; try (vm_compute; reflexivity).
  intros (row & b & j & Hrow & Hb & Hj & Hbond).
  simpl in Hrow, Hbond. simplify_eq.
  vm_compute in Hb. simplify_eq.
Qed.

(** ** The vocabulary builder *)

Lemma observed_atom_types mols z :
  z ∈ (observed_types mols).1 ↔
  ∃ mol a, mol ∈ mols ∧ a ∈ GetAtoms mol ∧ GetAtomicNum a = z.
Proof.
  unfold observed_types.
  enough (∀ acc : gset Z * gset BondType,
    z ∈ (fold_left
      (λ acc mol,
         (acc.1 ∪ list_to_set (GetAtomicNum <$> GetAtoms mol),
          acc.2 ∪ list_to_set (GetBondType <$> GetBonds mol)))
      mols acc).1 ↔
    z ∈ acc.1 ∨ ∃ mol a, mol ∈ mols ∧ a ∈ GetAtoms mol ∧ GetAtomicNum a = z)
    as Hgen.
  { rewrite Hgen. simpl. set_solver. }
  induction mols as [|mol mols IH]; intros acc; simpl.
  - set_solver.
  - rewrite IH. simpl.
    rewrite elem_of_union, elem_of_list_to_set, list_elem_of_fmap.
    split.
    + intros [[?|(a & -> & Ha)]|(mol' & a & Hm & Ha & Hz)].
      * by left.
      * right. exists mol, a. split_and!; [by left|done..].
      * right. exists mol', a. split_and!; [by right|done..].
    + intros [?|(mol' & a & Hm & Ha & Hz)]; [by left; left|].
      apply elem_of_cons in Hm as [->|Hm].
      * left. right. by exists a.
      * right. by exists mol', a.
Qed.

Lemma observed_bond_types mols t :
  t ∈ (observed_types mols).2 ↔
  ∃ mol b, mol ∈ mols ∧ b ∈ GetBonds mol ∧ GetBondType b = t.
Proof.
  unfold observed_types.
  enough (∀ acc : gset Z * gset BondType,
    t ∈ (fold_left
      (λ acc mol,
         (acc.1 ∪ list_to_set (GetAtomicNum <$> GetAtoms mol),
          acc.2 ∪ list_to_set (GetBondType <$> GetBonds mol)))
      mols acc).2 ↔
    t ∈ acc.2 ∨ ∃ mol b, mol ∈ mols ∧ b ∈ GetBonds mol ∧ GetBondType b = t)
    as Hgen.
  { rewrite Hgen. simpl. set_solver. }
  induction mols as [|mol mols IH]; intros acc; simpl.
  - set_solver.
  - rewrite IH. simpl.
    rewrite elem_of_union, elem_of_list_to_set, list_elem_of_fmap.
    split.
    + intros [[?|(b & -> & Hb)]|(mol' & b & Hm & Hb & Ht)].
      * by left.
      * right. exists mol, b. split_and!; [by left|done..].
      * right. exists mol', b. split_and!; [by right|done..].
    + intros [?|(mol' & b & Hm & Hb & Ht)]; [by left; left|].
      apply elem_of_cons in Hm as [->|Hm].
      * left. right. by exists b.
      * right. by exists mol', b.
Qed.

Lemma make_type_lookup_tables_eq mols :
  make_type_lookup_tables mols =
  (sorted Z.leb (elements (observed_types mols).1),
   sorted bond_leb (elements (observed_types mols).2)).
Proof. unfold make_type_lookup_tables. by destruct (observed_types mols). Qed.

(** The vocabularies built from a corpus hold every type of its molecules. *)
Lemma corpus_in_vocabulary mols mol :
  mol ∈ mols →
  in_vocabulary mol (make_type_lookup_tables mols).1
                    (make_type_lookup_tables mols).2.
Proof.
  intros Hmol. rewrite make_type_lookup_tables_eq. simpl. split.
  - intros a Ha. rewrite sorted_elem_of, elem_of_elements.
    apply observed_atom_types. by exists mol, a.
  - intros b Hb. rewrite sorted_elem_of, elem_of_elements.
    apply observed_bond_types. by exists mol, b.
Qed.

(** C6.  [make_type_lookup_tables] returns the atomic numbers and the bond
    categories seen in the molecules, each strictly ascending (so without
    duplicates); the lists do not depend on the order in which the two sets
    are iterated; an empty corpus gives two empty lists.  The function is
    total: no step of it can raise. *)
Theorem make_type_lookup_tables_spec mols :
  StronglySorted Z.lt (make_type_lookup_tables mols).1 ∧
  (∀ z, z ∈ (make_type_lookup_tables mols).1 ↔
        ∃ mol a, mol ∈ mols ∧ a ∈ GetAtoms mol ∧ GetAtomicNum a = z) ∧
  StronglySorted bond_lt (make_type_lookup_tables mols).2 ∧
  (∀ t, t ∈ (make_type_lookup_tables mols).2 ↔
        ∃ mol b, mol ∈ mols ∧ b ∈ GetBonds mol ∧ GetBondType b = t) ∧
  (∀ l1 l2,
     l1 ≡ₚ elements (observed_types mols).1 →
     l2 ≡ₚ elements (observed_types mols).2 →
     (sorted Z.leb l1, sorted bond_leb l2) = make_type_lookup_tables mols) ∧
  make_type_lookup_tables [] = ([], []).
Proof.
  rewrite make_type_lookup_tables_eq. simpl. split_and!.
  - apply (sorted_strict id (λ _ _ Heq, Heq)), NoDup_elements.
  - intros z. by rewrite sorted_elem_of, elem_of_elements, observed_atom_types.
  - apply (sorted_strict bond_value bond_value_inj), NoDup_elements.
  - intros t. by rewrite sorted_elem_of, elem_of_elements, observed_bond_types.
  - intros l1 l2 H1 H2. f_equal.
    + by apply (sorted_order_independent id (λ _ _ Heq, Heq)).
    + by apply (sorted_order_independent bond_value bond_value_inj).
  - reflexivity.
Qed.

Lemma make_type_lookup_tables_spec_witness :
  (sorted Z.leb
     (reverse (elements (observed_types [acetaldehyde; methane]).1)),
   sorted bond_leb
     (reverse (elements (observed_types [acetaldehyde; methane]).2)))
  = make_type_lookup_tables [acetaldehyde; methane].
Proof.
  destruct (make_type_lookup_tables_spec [acetaldehyde; methane])
    as (_ & _ & _ & _ & Horder & _).
  apply Horder; apply reverse_Permutation.
Defined.


(** ** What the indices of a record stand for *)

(** Entry [i] of [atom] is the position in [atom_types] of the atomic number
    of atom [i]. *)
Lemma atom_index_lookup mol atom_types bond_types r i a :
  convert_mol_to_dict mol atom_types bond_types = Ok r →
  GetAtoms mol !! i = Some a →
  ∃ j, atom r !! i = Some j ∧ atom_types !! j = Some (GetAtomicNum a).
Proof.
  intros (aids & eids & Ha & _ & _ & ->)%convert_mol_to_dict_Ok Hi. simpl.
  assert ((GetAtomicNum <$> GetAtoms mol) !! i = Some (GetAtomicNum a)) as Hz
    by (by rewrite list_lookup_fmap, Hi).
  destruct (mapM_Ok_lookup _ _ _ _ _ Ha Hz) as (j & Hj & Hidx).
  exists j. split; [done|]. by apply index_lookup.
Qed.

(** Entry [k] of [bond] is the position in [bond_types] of the category of
    bond [k / 2], the bond whose two directed rows were appended as rows
    [2 * (k / 2)] and [2 * (k / 2) + 1]. *)
Lemma bond_index_lookup mol atom_types bond_types r k j :
  convert_mol_to_dict mol atom_types bond_types = Ok r →
  bond r !! k = Some j →
  ∃ b, GetBonds mol !! (k / 2) = Some b ∧
       bond_types !! j = Some (GetBondType b).
Proof.
  intros (aids & eids & _ & He & _ & ->)%convert_mol_to_dict_Ok Hk.
  simpl in Hk. apply mapM_Ok in He.
  destruct (Forall2_lookup_r _ _ _ _ _ He Hk) as (t & Ht & Hidx).
  rewrite directed_types_lookup in Ht.
  destruct (GetBonds mol !! (k / 2)) as [b|]; [|done].
  simpl in Ht. injection Ht as <-.
  exists b. split; [done|]. by apply index_lookup.
Qed.

(** C7.  With the vocabularies built from a corpus that holds the molecule,
    no lookup can fail, and in the record of the molecule [atom_types] read at
    [atom[i]] is the atomic number of atom [i], and [bond_types] read at an
    entry of [bond] is the category of the bond the entry was appended for. *)
Theorem vocabulary_round_trip mols mol :
  mol ∈ mols →
  in_vocabulary mol (make_type_lookup_tables mols).1
                    (make_type_lookup_tables mols).2 ∧
  ∀ r,
    convert_mol_to_dict mol (make_type_lookup_tables mols).1
                            (make_type_lookup_tables mols).2 = Ok r →
    (∀ i a, GetAtoms mol !! i = Some a →
       ∃ j, atom r !! i = Some j ∧
            (make_type_lookup_tables mols).1 !! j = Some (GetAtomicNum a)) ∧
    (∀ k j, bond r !! k = Some j →
       ∃ b, GetBonds mol !! (k / 2) = Some b ∧
            (make_type_lookup_tables mols).2 !! j = Some (GetBondType b)).
Proof.
  intros Hmol. split; [by apply corpus_in_vocabulary|].
  intros r Hr. split.
  - intros i a. by eapply atom_index_lookup.
  - intros k j. by eapply bond_index_lookup.
Qed.

Example tables_of_two_molecules :
  make_type_lookup_tables [acetaldehyde; methane]
  = ([1; 6; 8]%Z, [SINGLE; DOUBLE]).
Proof. vm_compute. reflexivity. Qed.

Lemma vocabulary_round_trip_witness :
  (∀ i a, GetAtoms methane !! i = Some a →
     ∃ j, atom methane_encoded !! i = Some j ∧
          (make_type_lookup_tables [acetaldehyde; methane]).1 !! j
          = Some (GetAtomicNum a)) ∧
  (∀ k j, bond methane_encoded !! k = Some j →
     ∃ b, GetBonds methane !! (k / 2) = Some b ∧
          (make_type_lookup_tables [acetaldehyde; methane]).2 !! j
          = Some (GetBondType b)).
Proof.
  assert (methane ∈ [acetaldehyde; methane]) as Hin.
  { apply elem_of_cons. right. apply elem_of_cons. by left. }
  apply (proj2 (vocabulary_round_trip [acetaldehyde; methane] methane Hin)).
  vm_compute. reflexivity.
Defined.

(** ** Molecules without bonds *)

Example fluoride_record :
  convert_mol_to_dict fluoride qm9_atom_types qm9_bond_types
  = Ok {| n_atom := 1; n_bond := 0; atom := [4]; bond := [];
          connectivity := [] |}.
Proof. vm_compute. reflexivity. Qed.

Example helium_not_in_vocabulary :
  convert_mol_to_dict helium qm9_atom_types qm9_bond_types
  = Raise ValueError_not_in_list.
Proof. vm_compute. reflexivity. Qed.

(** ** Dict objects and the loop that writes the partitions *)

Section write_records_facts.
Context {float tfrecord : Type}.
Variable make_tfrecord : gmap string (Value float) → tfrecord.

Abbreviation dict := (gmap string (Value float)).
Abbreviation heap := (gmap nat (gmap string (Value float))).
Abbreviation as_dict := (@as_dict float).
Abbreviation with_labels := (@with_labels float).
Abbreviation label_entry := (@label_entry float).
Abbreviation labels_for := (@labels_for float).
Abbreviation encoder_dict := (@encoder_dict float).

Lemma dom_as_dict r : dom (as_dict r) = encoder_fields.
Proof. unfold as_dict, encoder_fields. rewrite !dom_insert_L. set_solver. Qed.

Lemma size_as_dict r : size (as_dict r) = 5.
Proof.
  unfold as_dict.
  rewrite !map_size_insert_None, map_size_empty; [done|..];
    by repeat (rewrite lookup_insert_ne by done).
Qed.

Lemma with_labels_idemp u b u' b' d :
  with_labels u b (with_labels u' b' d) = with_labels u b d.
Proof.
  apply map_eq. intros k. unfold with_labels.
  rewrite !lookup_insert. by repeat case_decide.
Qed.

Lemma with_labels_lookup_field u b d k :
  k ≠ "u0_atom"%string → k ≠ "bandgap"%string →
  with_labels u b d !! k = d !! k.
Proof. intros ??. unfold with_labels. by rewrite !lookup_insert_ne. Qed.

(** A labelled encoder dict has seven fields, and the five fields of the
    encoder are as they were. *)
Lemma with_labels_as_dict u b r :
  size (with_labels u b (as_dict r)) = 7 ∧
  dom (with_labels u b (as_dict r))
    = encoder_fields ∪ {[ "u0_atom"; "bandgap" ]}%string ∧
  with_labels u b (as_dict r) !! "u0_atom"%string = Some (VFloat u) ∧
  with_labels u b (as_dict r) !! "bandgap"%string = Some (VFloat b) ∧
  ∀ k, k ∈ encoder_fields →
       with_labels u b (as_dict r) !! k = as_dict r !! k.
Proof.
  split_and!.
  - unfold with_labels.
    rewrite !map_size_insert_None, size_as_dict; [done|..].
    + apply not_elem_of_dom. rewrite dom_as_dict. unfold encoder_fields.
      set_solver.
    + rewrite lookup_insert_ne by done.
      apply not_elem_of_dom. rewrite dom_as_dict. unfold encoder_fields.
      set_solver.
  - unfold with_labels. rewrite !dom_insert_L, dom_as_dict. set_solver.
  - unfold with_labels. rewrite lookup_insert_ne by done.
    by rewrite lookup_insert_eq.
  - unfold with_labels. by rewrite lookup_insert_eq.
  - intros k Hk. apply with_labels_lookup_field.
    + intros ->. unfold encoder_fields in Hk. set_solver.
    + intros ->. unfold encoder_fields in Hk. set_solver.
Qed.

Lemma write_entry_eq st entry :
  write_entry make_tfrecord st entry =
  (label_entry entry st.1,
   st.2 ++ [make_tfrecord (label_entry entry st.1 !!! entry_dict entry)]).
Proof.
  unfold write_entry, label_entry, set_item, with_labels. simpl.
  by rewrite alter_alter_eq.
Qed.

Lemma write_entries_heap es st :
  (foldl (write_entry make_tfrecord) st es).1
  = foldl (λ h e, label_entry e h) st.1 es.
Proof.
  revert st. induction es as [|e es IH]; intros st; simpl; [done|].
  rewrite IH. by rewrite write_entry_eq.
Qed.

Lemma labelled_heap_lookup es h l :
  foldl (λ h e, label_entry e h) h es !! l = labels_for l es <$> h !! l.
Proof.
  revert h. induction es as [|e es IH]; intros h; simpl.
  - by destruct (h !! l).
  - rewrite IH. unfold label_entry. rewrite lookup_alter.
    unfold labels_for. destruct (decide (entry_dict e = l)) as [<-|Hne].
    + destruct (h !! _); simpl; [|done]. by rewrite decide_True.
    + destruct (h !! l); simpl; [|done]. by rewrite decide_False.
Qed.

Lemma labelled_heap_dom es h : dom (foldl (λ h e, label_entry e h) h es) = dom h.
Proof.
  revert h. induction es as [|e es IH]; intros h; simpl; [done|].
  rewrite IH. apply dom_alter_L.
Qed.

Lemma labels_for_other l es d : l ∉ entry_dict <$> es → labels_for l es d = d.
Proof.
  revert d. induction es as [|e es IH]; intros d Hl; [done|].
  rewrite fmap_cons, not_elem_of_cons in Hl. destruct Hl as [Hne Hl].
  unfold labels_for. simpl. rewrite decide_False by done. by apply IH.
Qed.

Lemma labels_for_labelled l es u b d :
  ∃ u' b', labels_for l es (with_labels u b d) = with_labels u' b' d.
Proof.
  revert u b. induction es as [|e es IH]; intros u b.
  - by exists u, b.
  - unfold labels_for. simpl. case_decide.
    + rewrite with_labels_idemp. apply IH.
    + apply IH.
Qed.

Lemma labels_for_elem_of l es d :
  l ∈ entry_dict <$> es → ∃ u b, labels_for l es d = with_labels u b d.
Proof.
  revert d. induction es as [|e es IH]; intros d Hl.
  - by apply elem_of_nil in Hl.
  - unfold labels_for. simpl. case_decide as He.
    + apply labels_for_labelled.
    + rewrite fmap_cons in Hl. apply elem_of_cons in Hl as [?|Hl]; [done|].
      by apply IH.
Qed.

Lemma labels_for_NoDup es e d :
  NoDup (entry_dict <$> es) → e ∈ es →
  labels_for (entry_dict e) es d
  = with_labels (entry_u0_atom e) (entry_bandgap e) d.
Proof.
  revert d. induction es as [|e0 es IH]; intros d Hnd He.
  - by apply elem_of_nil in He.
  - rewrite fmap_cons in Hnd. apply NoDup_cons in Hnd as [Hnot Hnd].
    unfold labels_for. simpl. apply elem_of_cons in He as [<-|He].
    + rewrite decide_True by done. by apply labels_for_other.
    + rewrite decide_False; [by apply IH|].
      intros Heq. apply Hnot. rewrite Heq. by apply list_elem_of_fmap_2.
Qed.

Lemma with_labels_encoder_dict u b r d :
  encoder_dict r d → with_labels u b d = with_labels u b (as_dict r).
Proof. intros [->|(u' & b' & ->)]; [done|apply with_labels_idemp]. Qed.

Lemma label_entry_encoder_dict e h l r d :
  h !! l = Some d → encoder_dict r d →
  ∃ d', label_entry e h !! l = Some d' ∧ encoder_dict r d'.
Proof.
  intros Hl Hd. unfold label_entry. rewrite lookup_alter.
  case_decide as Heq.
  - subst l. rewrite Hl. simpl. eexists. split; [done|]. right. eexists _, _.
    by apply with_labels_encoder_dict.
  - by exists d.
Qed.

Lemma write_entries_written es st :
  (∀ e, e ∈ es → ∃ r d, st.1 !! entry_dict e = Some d ∧ encoder_dict r d) →
  ∃ new, (foldl (write_entry make_tfrecord) st es).2 = st.2 ++ new ∧
         length new = length es ∧ Forall (labelled_record make_tfrecord) new.
Proof.
  revert st. induction es as [|e es IH]; intros st Hinv; simpl.
  - exists []. by rewrite app_nil_r.
  - rewrite write_entry_eq.
    destruct (Hinv e) as (r & d & Hd & Henc); [by left|].
    destruct (IH (label_entry e st.1,
                  st.2 ++ [make_tfrecord (label_entry e st.1 !!! entry_dict e)]))
      as (new & -> & Hlen & Hall).
    { intros e' He'. simpl.
      destruct (Hinv e') as (r' & d' & Hd' & Henc'); [by right|].
      destruct (label_entry_encoder_dict e _ _ _ _ Hd' Henc') as (d'' & ? & ?).
      by exists r', d''. }
    exists (make_tfrecord (label_entry e st.1 !!! entry_dict e) :: new).
    simpl. split_and!.
    + by rewrite <-app_assoc.
    + by rewrite Hlen.
    + constructor; [|done].
      exists r, (entry_u0_atom e), (entry_bandgap e). f_equal.
      apply lookup_total_correct. unfold label_entry.
      rewrite lookup_alter_eq, Hd. simpl. f_equal.
      by apply with_labels_encoder_dict.
Qed.

Lemma labelled_heap_encoder_dict es h l r d :
  h !! l = Some d → encoder_dict r d →
  ∃ d', foldl (λ h e, label_entry e h) h es !! l = Some d' ∧
        encoder_dict r d'.
Proof.
  intros Hl Hd. rewrite labelled_heap_lookup, Hl. simpl.
  eexists. split; [done|].
  destruct (decide (l ∈ entry_dict <$> es)) as [Hin|Hout].
  - destruct (labels_for_elem_of l es d Hin) as (u & b & ->).
    right. exists u, b. by apply with_labels_encoder_dict.
  - by rewrite labels_for_other.
Qed.

Lemma write_partition_spec st part :
  (∀ e, e ∈ part.2 →
        ∃ r d, st.1 !! entry_dict e = Some d ∧ encoder_dict r d) →
  ∃ out,
    write_partition make_tfrecord st part
    = (foldl (λ h e, label_entry e h) st.1 part.2,
       <[file_name part.1 := out]> st.2) ∧
    length out = length part.2 ∧ Forall (labelled_record make_tfrecord) out.
Proof.
  intros Hinv. unfold write_partition.
  destruct (write_entries_written part.2 (st.1, []) Hinv)
    as (out & Hout & Hlen & Hall).
  exists out. rewrite write_entries_heap, Hout. simpl. done.
Qed.

Lemma file_names_differ :
  file_name "train" ≠ file_name "valid" ∧
  file_name "train" ≠ file_name "test" ∧
  file_name "valid" ≠ file_name "test".
Proof. by vm_compute. Qed.

(** C10.  The loop of the last cell stores the two labels in the dict objects
    that the data set holds, not in copies: no dict is made or dropped, every
    dict that an entry refers to ends with the seven fields (the five of the
    encoder, unchanged, and the two labels), dicts that no entry refers to are
    as before, and every record written to the three files is made from such
    a dict of seven fields. *)
Theorem save_data_labels_stored_dicts
    (train_data valid_data test_data : list (Entry float))
    (h : heap) (files : gmap string (list tfrecord)) :
  let entries := train_data ++ valid_data ++ test_data in
  let st' :=
    save_data make_tfrecord train_data valid_data test_data (h, files) in
  (∀ e, e ∈ entries → ∃ r, h !! entry_dict e = Some (as_dict r)) →
  dom st'.1 = dom h ∧
  (∀ l, l ∉ entry_dict <$> entries → st'.1 !! l = h !! l) ∧
  (∀ e r, e ∈ entries → h !! entry_dict e = Some (as_dict r) →
     ∃ u b,
       st'.1 !! entry_dict e = Some (with_labels u b (as_dict r)) ∧
       size (as_dict r) = 5 ∧
       size (with_labels u b (as_dict r)) = 7 ∧
       with_labels u b (as_dict r) !! "u0_atom"%string = Some (VFloat u) ∧
       with_labels u b (as_dict r) !! "bandgap"%string = Some (VFloat b) ∧
       ∀ k, k ∈ encoder_fields →
            with_labels u b (as_dict r) !! k = as_dict r !! k) ∧
  (NoDup (entry_dict <$> entries) →
   ∀ e r, e ∈ entries → h !! entry_dict e = Some (as_dict r) →
     st'.1 !! entry_dict e
     = Some (with_labels (entry_u0_atom e) (entry_bandgap e) (as_dict r))) ∧
  ∃ train_out valid_out test_out,
    st'.2 !! file_name "train" = Some train_out ∧
    st'.2 !! file_name "valid" = Some valid_out ∧
    st'.2 !! file_name "test" = Some test_out ∧
    length train_out = length train_data ∧
    length valid_out = length valid_data ∧
    length test_out = length test_data ∧
    Forall (labelled_record make_tfrecord) (train_out ++ valid_out ++ test_out).
Proof.
  intros entries st' Hinv.
  assert (∀ es e, e ∈ entries →
            ∃ r d, foldl (λ h e, label_entry e h) h es !! entry_dict e = Some d
                   ∧ encoder_dict r d) as Hany.
  { intros es e He. destruct (Hinv e He) as [r Hr].
    destruct (labelled_heap_encoder_dict es h _ r _ Hr) as (d & ? & ?);
      [by left|]. by exists r, d. }
  destruct (write_partition_spec (h, files) ("train"%string, train_data))
    as (o1 & E1 & L1 & F1).
  { intros e He. apply (Hany [] e). unfold entries. set_solver. }
  cbn [fst snd] in E1, L1.
  destruct (write_partition_spec
              (foldl (λ h e, label_entry e h) h train_data,
               <[file_name "train" := o1]> files)
              ("valid"%string, valid_data))
    as (o2 & E2 & L2 & F2).
  { intros e He. apply (Hany train_data e). unfold entries. set_solver. }
  cbn [fst snd] in E2, L2.
  destruct (write_partition_spec
              (foldl (λ h e, label_entry e h)
                     (foldl (λ h e, label_entry e h) h train_data) valid_data,
               <[file_name "valid" := o2]> (<[file_name "train" := o1]> files))
              ("test"%string, test_data))
    as (o3 & E3 & L3 & F3).
  { intros e He. cbn [fst snd]. rewrite <-foldl_app.
    apply (Hany (train_data ++ valid_data) e). unfold entries. set_solver. }
  cbn [fst snd] in E3, L3.
  assert (st' =
    (foldl (λ h e, label_entry e h) h entries,
     <[file_name "test" := o3]>
       (<[file_name "valid" := o2]> (<[file_name "train" := o1]> files))))
    as ->.
  { unfold st', save_data, write_partitions. cbn [zip_with foldl].
    rewrite E1, E2, E3. unfold entries. by rewrite !foldl_app. }
  cbn [fst snd]. destruct file_names_differ as (Htv & Htt & Hvt).
  split_and!.
  - apply labelled_heap_dom.
  - intros l Hl. rewrite labelled_heap_lookup.
    destruct (h !! l); simpl; [|done]. by rewrite labels_for_other.
  - intros e r He Hr. rewrite labelled_heap_lookup, Hr.
    cbn [fmap option_fmap option_map].
    destruct (labels_for_elem_of (entry_dict e) entries (as_dict r))
      as (u & b & ->); [by apply list_elem_of_fmap_2|].
    exists u, b. split; [reflexivity|]. split; [apply size_as_dict|].
    destruct (with_labels_as_dict u b r) as (? & _ & ? & ? & ?). auto.
  - intros Hnd e r He Hr. rewrite labelled_heap_lookup, Hr.
    cbn [fmap option_fmap option_map]. f_equal. exact (labels_for_NoDup entries e (as_dict r) Hnd He).
  - exists o1, o2, o3. split_and!.
    + rewrite lookup_insert_ne by (intros Heq; apply Htt; exact (eq_sym Heq)).
      rewrite lookup_insert_ne by (intros Heq; apply Htv; exact (eq_sym Heq)).
      apply lookup_insert_eq.
    + rewrite lookup_insert_ne by (intros Heq; apply Hvt; exact (eq_sym Heq)).
      apply lookup_insert_eq.
    + apply lookup_insert_eq.
    + exact L1.
    + exact L2.
    + exact L3.
    + rewrite !Forall_app. auto.
Qed.

Lemma call_convert_mol_to_dict_Ok h mol atom_types bond_types l h' :
  call_convert_mol_to_dict h mol atom_types bond_types = Ok (l, h') ↔
  ∃ r, convert_mol_to_dict mol atom_types bond_types = Ok r ∧
       l = fresh (dom h) ∧ h' = <[l := as_dict r]> h.
Proof.
  unfold call_convert_mol_to_dict, new_dict.
  destruct (convert_mol_to_dict mol atom_types bond_types) as [r|e].
  - rewrite result_bind_Ok. split.
    + intros [= <- <-]. by exists r.
    + intros (r' & [= <-] & -> & ->). done.
  - split; [done|]. by intros (r' & ? & _).
Qed.

End write_records_facts.

(** ** The loop on two stored dicts *)

Lemma save_data_labels_stored_dicts_witness :
  let h : gmap nat (gmap string (Value Q)) :=
    <[0 := as_dict methane_encoded]> (<[1 := as_dict fluoride_encoded]> ∅) in
  let e0 := {| entry_dict := 0; entry_u0_atom := (-6 # 10)%Q;
               entry_bandgap := (4 # 10)%Q |} in
  let e1 := {| entry_dict := 1; entry_u0_atom := (-1 # 10)%Q;
               entry_bandgap := (7 # 10)%Q |} in
  let st' := save_data (λ d, d) [e0] [e1] [] (h, ∅) in
  st'.1 !! 0 = Some (with_labels (-6 # 10)%Q (4 # 10)%Q (as_dict methane_encoded)) ∧
  st'.1 !! 1 = Some (with_labels (-1 # 10)%Q (7 # 10)%Q (as_dict fluoride_encoded)).
Proof.
  intros h e0 e1 st'.
  assert (∀ e, e ∈ [e0] ++ [e1] ++ [] →
               ∃ r, h !! entry_dict e = Some (as_dict r)) as Hinv.
  { intros e He. simpl in He.
    apply elem_of_cons in He as [->|He];
      [|apply elem_of_cons in He as [->|He]].
    - exists methane_encoded. apply lookup_insert_eq.
    - exists fluoride_encoded. unfold h.
      rewrite lookup_insert_ne by done. apply lookup_insert_eq.
    - by apply elem_of_nil in He. }
  destruct (save_data_labels_stored_dicts (λ d, d) [e0] [e1] [] h ∅ Hinv)
    as (_ & _ & _ & Hexact & _).
  assert (NoDup (entry_dict <$> [e0] ++ [e1] ++ [])) as Hnd.
  { simpl. apply NoDup_cons. split; [set_solver|]. apply NoDup_singleton. }
  split.
  - apply (Hexact Hnd e0 methane_encoded).
    + simpl. apply elem_of_cons. by left.
    + apply lookup_insert_eq.
  - apply (Hexact Hnd e1 fluoride_encoded).
    + simpl. apply elem_of_cons. right. apply elem_of_cons. by left.
    + unfold h. rewrite lookup_insert_ne by done. apply lookup_insert_eq.
Defined.

(** ** The ways in which the encoder ends *)

(** The result of the encoder, by the outcome of its two lookups and of its
    check. *)
Lemma convert_mol_to_dict_cases mol atom_types bond_types :
  convert_mol_to_dict mol atom_types bond_types =
  match mapM (index atom_types) (GetAtomicNum <$> GetAtoms mol) with
  | Raise e => Raise e
  | Ok atom_type_id =>
    match mapM (index bond_types) (directed_types (GetBonds mol)) with
    | Raise e => Raise e
    | Ok edge_type_id =>
      if decide (GetBonds mol ≠ [] ∧
                 Z.of_nat (array_max (directed_rows (GetBonds mol)))
                 ≠ (Z.of_nat (length (GetAtoms mol)) - 1)%Z)
      then Raise (NameError "convert_nx_to_smiles")
      else Ok {| n_atom := length (GetAtoms mol);
                 n_bond := 2 * length (GetBonds mol);
                 atom := atom_type_id; bond := edge_type_id;
                 connectivity := sorted_rows (directed_rows (GetBonds mol)) |}
    end
  end.
Proof.
  destruct (mapM (index atom_types) (GetAtomicNum <$> GetAtoms mol))
    as [aids|e1] eqn:Ha.
  - destruct (mapM (index bond_types) (directed_types (GetBonds mol)))
      as [eids|e2] eqn:He.
    + case_decide as Hcheck.
      * destruct Hcheck as [Hne Hmax].
        apply convert_mol_to_dict_unconnected; [by eexists..|done|].
        by rewrite array_max_sorted_rows.
      * apply convert_mol_to_dict_Ok. exists aids, eids.
        split_and!; [done..| |done].
        intros Hne. rewrite array_max_sorted_rows.
        destruct (decide (Z.of_nat (array_max (directed_rows (GetBonds mol)))
                          = (Z.of_nat (length (GetAtoms mol)) - 1)%Z));
          [done|]. destruct Hcheck. done.
    + unfold convert_mol_to_dict. rewrite bond_loop_eq. cbv beta iota zeta.
      by rewrite Ha, result_bind_Ok, He.
  - unfold convert_mol_to_dict. cbv zeta. by rewrite Ha.
Qed.

Lemma mapM_index_Raise {A} `{EqDecision A} (l xs : list A) e :
  mapM (index l) xs = Raise e →
  e = ValueError_not_in_list ∧ ∃ x, x ∈ xs ∧ x ∉ l.
Proof.
  intros (x & Hx & [-> Hnot]%index_Raise)%mapM_Raise. split; [done|].
  by exists x.
Qed.

Lemma mapM_index_elem_of {A} `{EqDecision A} (l xs : list A) ids x :
  mapM (index l) xs = Ok ids → x ∈ xs → x ∈ l.
Proof.
  intros Hm (i & Hi)%list_elem_of_lookup_1.
  destruct (mapM_Ok_lookup _ _ _ _ _ Hm Hi) as (j & _ & Hj%index_lookup).
  by eapply list_elem_of_lookup_2.
Qed.

Lemma elem_of_directed_types bonds t :
  t ∈ directed_types bonds ↔ ∃ b, b ∈ bonds ∧ GetBondType b = t.
Proof.
  unfold directed_types. rewrite list_elem_of_In, in_flat_map. split.
  - intros (b & Hb%list_elem_of_In & Ht). exists b. split; [done|].
    simpl in Ht. destruct Ht as [?|[?|[]]]; done.
  - intros (b & Hb%list_elem_of_In & <-). exists b. split; [done|]. by left.
Qed.

(** The two lookups succeed exactly on the molecules that the vocabularies
    cover. *)
Lemma lookups_in_vocabulary mol atom_types bond_types aids eids :
  mapM (index atom_types) (GetAtomicNum <$> GetAtoms mol) = Ok aids →
  mapM (index bond_types) (directed_types (GetBonds mol)) = Ok eids →
  in_vocabulary mol atom_types bond_types.
Proof.
  intros Ha He. split.
  - intros a Hin. eapply mapM_index_elem_of; [exact Ha|].
    by apply list_elem_of_fmap_2.
  - intros b Hin. eapply mapM_index_elem_of; [exact He|].
    apply elem_of_directed_types. by exists b.
Qed.

Lemma not_in_vocabulary_lookups mol atom_types bond_types e :
  mapM (index atom_types) (GetAtomicNum <$> GetAtoms mol) = Raise e ∨
  (is_Ok (mapM (index atom_types) (GetAtomicNum <$> GetAtoms mol)) ∧
   mapM (index bond_types) (directed_types (GetBonds mol)) = Raise e) →
  e = ValueError_not_in_list ∧ ¬ in_vocabulary mol atom_types bond_types.
Proof.
  intros [Ha|[_ He]].
  - apply mapM_index_Raise in Ha
      as [-> (z & (a & -> & Hin)%list_elem_of_fmap & Hnot)].
    split; [done|]. intros [Hatoms _]. by apply Hnot, Hatoms.
  - apply mapM_index_Raise in He
      as [-> (t & (b & Hin & <-)%elem_of_directed_types & Hnot)].
    split; [done|]. intros [_ Hbonds]. by apply Hnot, Hbonds.
Qed.

(** X1.  Whatever the molecule and the vocabularies, a call that fails ends
    either in the [ValueError] of [list.index] or in the [NameError] on
    [convert_nx_to_smiles]: the [ValueError] of line 214 is never raised. *)
Theorem convert_mol_to_dict_raises mol atom_types bond_types e :
  convert_mol_to_dict mol atom_types bond_types = Raise e →
  e = ValueError_not_in_list ∨ e = NameError "convert_nx_to_smiles".
Proof.
  rewrite convert_mol_to_dict_cases.
  destruct (mapM (index atom_types) _) as [aids|e1] eqn:Ha.
  - destruct (mapM (index bond_types) _) as [eids|e2] eqn:He.
    + case_decide; [|done]. intros [= <-]. by right.
    + intros [= <-]. left. by apply mapM_index_Raise in He as [-> _].
  - intros [= <-]. left. by apply mapM_index_Raise in Ha as [-> _].
Qed.

Lemma convert_mol_to_dict_raises_witness :
  convert_mol_to_dict helium qm9_atom_types qm9_bond_types
  = Raise ValueError_not_in_list ∧
  (ValueError_not_in_list = ValueError_not_in_list ∨
   ValueError_not_in_list = NameError "convert_nx_to_smiles").
Proof.
  split; [vm_compute; reflexivity|].
  apply (convert_mol_to_dict_raises helium qm9_atom_types qm9_bond_types).
  vm_compute. reflexivity.
Defined.

(** X2.  The call ends in the [ValueError] of [list.index] exactly when some
    atomic number of the molecule is missing from [atom_types] or some bond
    type is missing from [bond_types], with or without bonds, and whatever
    the check on the largest index would give. *)
Theorem convert_mol_to_dict_lookup_error mol atom_types bond_types :
  convert_mol_to_dict mol atom_types bond_types = Raise ValueError_not_in_list
  ↔ ¬ in_vocabulary mol atom_types bond_types.
Proof.
  rewrite convert_mol_to_dict_cases.
  destruct (mapM (index atom_types) _) as [aids|e1] eqn:Ha.
  - destruct (mapM (index bond_types) _) as [eids|e2] eqn:He.
    + pose proof (lookups_in_vocabulary _ _ _ _ _ Ha He) as Hvoc.
      split; [by case_decide|done].
    + destruct (not_in_vocabulary_lookups mol atom_types bond_types e2)
        as [-> Hnot]; [right; split; [by eexists|done]|]. done.
  - destruct (not_in_vocabulary_lookups mol atom_types bond_types e1)
      as [-> Hnot]; [by left|]. done.
Qed.

(** X3.  The call ends in the [NameError] exactly when the vocabularies cover
    the molecule, the molecule has a bond, and the largest atom index among
    the bond ends is not [n_atom - 1]. *)
Theorem convert_mol_to_dict_NameError mol atom_types bond_types :
  convert_mol_to_dict mol atom_types bond_types
  = Raise (NameError "convert_nx_to_smiles")
  ↔ in_vocabulary mol atom_types bond_types ∧
    GetBonds mol ≠ [] ∧
    Z.of_nat (array_max (directed_rows (GetBonds mol)))
    ≠ (Z.of_nat (length (GetAtoms mol)) - 1)%Z.
Proof.
  rewrite convert_mol_to_dict_cases.
  destruct (mapM (index atom_types) _) as [aids|e1] eqn:Ha.
  - destruct (mapM (index bond_types) _) as [eids|e2] eqn:He.
    + pose proof (lookups_in_vocabulary _ _ _ _ _ Ha He) as Hvoc.
      case_decide as Hcheck.
      * split; [intros _; by destruct Hcheck|done].
      * split; [done|]. intros (_ & Hne & Hmax). by destruct Hcheck.
    + destruct (not_in_vocabulary_lookups mol atom_types bond_types e2)
        as [-> Hnot]; [right; split; [by eexists|done]|].
      split; [done|]. by intros [Hvoc _].
  - destruct (not_in_vocabulary_lookups mol atom_types bond_types e1)
      as [-> Hnot]; [by left|].
    split; [done|]. by intros [Hvoc _].
Qed.

(** ** The content of an encoded record *)

Lemma elem_of_directed_rows bonds a b :
  (a, b) ∈ directed_rows bonds ↔
  ∃ bond, bond ∈ bonds ∧
    ((GetBeginAtomIdx bond = a ∧ GetEndAtomIdx bond = b) ∨
     (GetBeginAtomIdx bond = b ∧ GetEndAtomIdx bond = a)).
Proof.
  unfold directed_rows. rewrite list_elem_of_In, in_flat_map. split.
  - intros (bond & Hb%list_elem_of_In & Hr). exists bond. split; [done|].
    simpl in Hr. destruct Hr as [[= <- <-]|[[= <- <-]|[]]]; auto.
  - intros (bond & Hb%list_elem_of_In & [[<- <-]|[<- <-]]);
      exists bond; (split; [done|]); simpl; auto.
Qed.

(** X4.  The connectivity table of a record holds the two directed rows of
    every bond of the molecule and nothing else: it is a rearrangement of the
    rows in the order of emission, so it holds [(b, a)] whenever it holds
    [(a, b)], and it holds [(a, b)] exactly when a bond joins [a] and [b]. *)
Theorem connectivity_holds_both_directions mol atom_types bond_types r :
  convert_mol_to_dict mol atom_types bond_types = Ok r →
  connectivity r ≡ₚ directed_rows (GetBonds mol) ∧
  (∀ a b, (a, b) ∈ connectivity r ↔ (b, a) ∈ connectivity r) ∧
  (∀ a b, (a, b) ∈ connectivity r ↔
     ∃ bond, bond ∈ GetBonds mol ∧
       ((GetBeginAtomIdx bond = a ∧ GetEndAtomIdx bond = b) ∨
        (GetBeginAtomIdx bond = b ∧ GetEndAtomIdx bond = a))).
Proof.
  intros (aids & eids & _ & _ & _ & ->)%convert_mol_to_dict_Ok. simpl.
  split_and!.
  - apply sorted_rows_perm.
  - intros a b. rewrite !sorted_rows_perm, !elem_of_directed_rows.
    split; intros (bond & ? & [?|?]); exists bond; auto.
  - intros a b. by rewrite sorted_rows_perm, elem_of_directed_rows.
Qed.

Lemma connectivity_holds_both_directions_witness :
  connectivity methane_encoded ≡ₚ directed_rows (GetBonds methane) ∧
  (∀ a b, (a, b) ∈ connectivity methane_encoded
          ↔ (b, a) ∈ connectivity methane_encoded) ∧
  (∀ a b, (a, b) ∈ connectivity methane_encoded ↔
     ∃ bond, bond ∈ GetBonds methane ∧
       ((GetBeginAtomIdx bond = a ∧ GetEndAtomIdx bond = b) ∨
        (GetBeginAtomIdx bond = b ∧ GetEndAtomIdx bond = a))).
Proof.
  apply (connectivity_holds_both_directions
           methane qm9_atom_types qm9_bond_types methane_encoded).
  exact methane_record.
Defined.

(** X5.  In a record every entry of the connectivity table is the index of an
    atom of the record: the check on the largest index rejects any molecule
    with a bond end at or beyond [n_atom].  When the record has a bond, its
    last atom, [n_atom - 1], is among the entries. *)
Theorem connectivity_indices_in_range mol atom_types bond_types r :
  convert_mol_to_dict mol atom_types bond_types = Ok r →
  (∀ row, row ∈ connectivity r → row.1 < n_atom r ∧ row.2 < n_atom r) ∧
  (0 < n_bond r →
     0 < n_atom r ∧ n_atom r - 1 ∈ array_entries (connectivity r)).
Proof.
  intros (aids & eids & _ & _ & Hmax & ->)%convert_mol_to_dict_Ok. simpl.
  destruct (decide (GetBonds mol = [])) as [Hnil|Hbonds].
  - rewrite Hnil. simpl. split; [|lia].
    intros row Hrow. by apply elem_of_nil in Hrow.
  - specialize (Hmax Hbonds). unfold array_max in Hmax.
    set (rows := sorted_rows (directed_rows (GetBonds mol))) in *.
    assert (array_entries rows ≠ []) as Hne.
    { assert (length rows = 2 * length (GetBonds mol)) as Hlen
        by (unfold rows; by rewrite sorted_rows_length, directed_rows_length).
      destruct (GetBonds mol); [done|]. by destruct rows. }
    pose proof (max_list_elem_of _ Hne) as Hin.
    split.
    + intros row Hrow.
      assert (row.1 ∈ array_entries rows ∧ row.2 ∈ array_entries rows)
        as [H1 H2].
      { unfold array_entries. rewrite !list_elem_of_In, !in_flat_map.
        split; exists row; (split; [by apply list_elem_of_In|]); simpl; auto. }
      apply max_list_elem_of_le in H1, H2. lia.
    + intros _. split; [lia|].
      replace (length (GetAtoms mol) - 1) with (max_list (array_entries rows))
        by lia. done.
Qed.

Lemma connectivity_indices_in_range_witness :
  (∀ row, row ∈ connectivity methane_encoded →
          row.1 < n_atom methane_encoded ∧ row.2 < n_atom methane_encoded) ∧
  (0 < n_bond methane_encoded →
     0 < n_atom methane_encoded ∧
     n_atom methane_encoded - 1 ∈ array_entries (connectivity methane_encoded)).
Proof.
  apply (connectivity_indices_in_range
           methane qm9_atom_types qm9_bond_types methane_encoded).
  exact methane_record.
Defined.

(** X6.  Every entry of [atom] is a position of [atom_types] and every entry
    of [bond] is a position of [bond_types]. *)
Theorem type_indices_in_range mol atom_types bond_types r :
  convert_mol_to_dict mol atom_types bond_types = Ok r →
  Forall (λ j, j < length atom_types) (atom r) ∧
  Forall (λ j, j < length bond_types) (bond r).
Proof.
  intros (aids & eids & Ha & He & _ & ->)%convert_mol_to_dict_Ok. simpl.
  apply mapM_Ok in Ha, He. split; apply Forall_forall.
  - intros j (i & Hi)%list_elem_of_lookup_1.
    destruct (Forall2_lookup_r _ _ _ _ _ Ha Hi) as (z & _ & Hz%index_lookup).
    by eapply lookup_lt_Some.
  - intros j (i & Hi)%list_elem_of_lookup_1.
    destruct (Forall2_lookup_r _ _ _ _ _ He Hi) as (t & _ & Ht%index_lookup).
    by eapply lookup_lt_Some.
Qed.

Lemma type_indices_in_range_witness :
  Forall (λ j, j < length qm9_atom_types) (atom methane_encoded) ∧
  Forall (λ j, j < length qm9_bond_types) (bond methane_encoded).
Proof.
  apply (type_indices_in_range methane qm9_atom_types qm9_bond_types).
  exact methane_record.
Defined.

Lemma directed_types_pair bonds k :
  directed_types bonds !! (2 * k) = directed_types bonds !! (2 * k + 1).
Proof.
  rewrite !directed_types_lookup. f_equal. f_equal.
  rewrite (Nat.mul_comm 2 k), Nat.div_mul by lia.
  rewrite Nat.div_add_l by lia. simpl. lia.
Qed.

(** X7.  The entries of [bond] come in pairs: entries [2 k] and [2 k + 1],
    appended for the two directions of bond [k], are equal. *)
Theorem bond_entries_in_pairs mol atom_types bond_types r :
  convert_mol_to_dict mol atom_types bond_types = Ok r →
  ∀ k, bond r !! (2 * k) = bond r !! (2 * k + 1).
Proof.
  intros (aids & eids & _ & He & _ & ->)%convert_mol_to_dict_Ok k.
  cbn [bond]. apply mapM_Ok in He.
  pose proof (directed_types_pair (GetBonds mol) k) as Hpair.
  destruct (eids !! (2 * k)) as [j|] eqn:Hj.
  - destruct (Forall2_lookup_r _ _ _ _ _ He Hj) as (t & Ht & Hidx).
    rewrite Hpair in Ht.
    destruct (Forall2_lookup_l _ _ _ _ _ He Ht) as (j' & -> & Hidx').
    congruence.
  - destruct (eids !! (2 * k + 1)) as [j'|] eqn:Hj'; [|done].
    destruct (Forall2_lookup_r _ _ _ _ _ He Hj') as (t & Ht & _).
    rewrite <-Hpair in Ht.
    destruct (Forall2_lookup_l _ _ _ _ _ He Ht) as (j & Hj'' & _). congruence.
Qed.

Lemma bond_entries_in_pairs_witness :
  bond methane_encoded !! (2 * 1) = bond methane_encoded !! (2 * 1 + 1).
Proof.
  apply (bond_entries_in_pairs
           methane qm9_atom_types qm9_bond_types methane_encoded
           methane_record 1).
Defined.

Lemma index_app_l {A} `{EqDecision A} (l l' : list A) x i :
  index l x = Ok i → index (l ++ l') x = Ok i.
Proof.
  rewrite !index_Ok. intros [Hi Hfirst].
  pose proof (lookup_lt_Some _ _ _ Hi) as Hlt. split.
  - by apply lookup_app_l_Some.
  - intros j Hj. rewrite lookup_app_l by lia. by apply Hfirst.
Qed.

Lemma mapM_index_app_l {A} `{EqDecision A} (l l' xs : list A) ids :
  mapM (index l) xs = Ok ids → mapM (index (l ++ l')) xs = Ok ids.
Proof.
  rewrite !mapM_Ok. intros Hall.
  eapply Forall2_impl; [exact Hall|]. intros x i. apply index_app_l.
Qed.

(** X8.  Types appended at the end of the vocabularies change no record: a
    molecule that is encoded with [atom_types] and [bond_types] is encoded to
    the same record with [atom_types ++ more_atoms] and
    [bond_types ++ more_bonds]. *)
Theorem appended_types_keep_records
    mol atom_types bond_types more_atoms more_bonds r :
  convert_mol_to_dict mol atom_types bond_types = Ok r →
  convert_mol_to_dict mol (atom_types ++ more_atoms) (bond_types ++ more_bonds)
  = Ok r.
Proof.
  intros (aids & eids & Ha & He & Hmax & ->)%convert_mol_to_dict_Ok.
  apply convert_mol_to_dict_Ok. exists aids, eids.
  split_and!; [by apply mapM_index_app_l..|done|done].
Qed.

Lemma appended_types_keep_records_witness :
  convert_mol_to_dict methane (qm9_atom_types ++ [16; 17]%Z)
                              (qm9_bond_types ++ [])
  = Ok methane_encoded.
Proof.
  apply (appended_types_keep_records methane qm9_atom_types qm9_bond_types).
  exact methane_record.
Defined.

Lemma row_le_trans : Transitive row_le.
Proof. intros [a1 b1] [a2 b2] [a3 b3]. unfold row_le. simpl. lia. Qed.

Lemma StronglySorted_lookup_lt {A} (R : relation A) (l : list A) i j x y :
  StronglySorted R l → i < j → l !! i = Some x → l !! j = Some y → R x y.
Proof.
  intros Hl. revert i j. induction Hl as [|a l Hl IH Hall]; intros i j Hij Hi Hj.
  - done.
  - destruct j as [|j]; [lia|]. simpl in Hj. destruct i as [|i].
    + simpl in Hi. injection Hi as ->.
      rewrite Forall_forall in Hall. apply Hall.
      by eapply list_elem_of_lookup_2.
    + simpl in Hi. apply (IH i j); [lia|done..].
Qed.

Lemma sorted_rows_sources rows i j ri rj :
  i ≤ j → sorted_rows rows !! i = Some ri → sorted_rows rows !! j = Some rj →
  ri.1 ≤ rj.1.
Proof.
  intros Hij Hi Hj.
  destruct (decide (i = j)) as [->|Hne]; [by simplify_eq|].
  pose proof (sorted_rows_Sorted rows) as Hs.
  apply (@Sorted_StronglySorted _ _ row_le_trans) in Hs.
  pose proof (StronglySorted_lookup_lt _ _ i j _ _ Hs ltac:(lia) Hi Hj) as Hle.
  unfold row_le in Hle. lia.
Qed.

(** X9.  In a record the sources of the connectivity rows never decrease, at
    any distance, so the rows that leave one atom are next to each other:
    between two rows with the same source every row has that source. *)
Theorem connectivity_grouped_by_source mol atom_types bond_types r :
  convert_mol_to_dict mol atom_types bond_types = Ok r →
  (∀ i j ri rj,
     i ≤ j → connectivity r !! i = Some ri → connectivity r !! j = Some rj →
     ri.1 ≤ rj.1) ∧
  (∀ i j k ri rj rk,
     i ≤ j → j ≤ k →
     connectivity r !! i = Some ri → connectivity r !! j = Some rj →
     connectivity r !! k = Some rk →
     ri.1 = rk.1 → rj.1 = ri.1).
Proof.
  intros (aids & eids & _ & _ & _ & ->)%convert_mol_to_dict_Ok. simpl. split.
  - intros i j ri rj. apply sorted_rows_sources.
  - intros i j k ri rj rk Hij Hjk Hi Hj Hk Heq.
    pose proof (sorted_rows_sources _ _ _ _ _ Hij Hi Hj).
    pose proof (sorted_rows_sources _ _ _ _ _ Hjk Hj Hk). lia.
Qed.

Lemma connectivity_grouped_by_source_witness :
  (∀ i j ri rj,
     i ≤ j → connectivity methane_encoded !! i = Some ri →
     connectivity methane_encoded !! j = Some rj → ri.1 ≤ rj.1) ∧
  (∀ i j k ri rj rk,
     i ≤ j → j ≤ k →
     connectivity methane_encoded !! i = Some ri →
     connectivity methane_encoded !! j = Some rj →
     connectivity methane_encoded !! k = Some rk →
     ri.1 = rk.1 → rj.1 = ri.1).
Proof.
  apply (connectivity_grouped_by_source
           methane qm9_atom_types qm9_bond_types methane_encoded).
  exact methane_record.
Defined.

Lemma rows_from_directed_rows i bonds :
  rows_from i (directed_rows bonds) =
  length (filter (λ b, GetBeginAtomIdx b = i) bonds) +
  length (filter (λ b, GetEndAtomIdx b = i) bonds).
Proof.
  unfold rows_from. induction bonds as [|b bonds IH]; [done|].
  change (directed_rows (b :: bonds))
    with ((GetBeginAtomIdx b, GetEndAtomIdx b)
            :: (GetEndAtomIdx b, GetBeginAtomIdx b) :: directed_rows bonds).
  rewrite !filter_cons. cbn [fst snd].
  destruct (decide (GetBeginAtomIdx b = i)), (decide (GetEndAtomIdx b = i));
    simpl; rewrite IH; lia.
Qed.

(** X10.  In a record the number of connectivity rows that leave atom [i] is
    the number of bond ends at atom [i] in the molecule. *)
Theorem rows_from_atom_is_degree mol atom_types bond_types r i :
  convert_mol_to_dict mol atom_types bond_types = Ok r →
  rows_from i (connectivity r) = degree mol i.
Proof.
  intros (aids & eids & _ & _ & _ & ->)%convert_mol_to_dict_Ok. simpl.
  unfold degree. rewrite <-rows_from_directed_rows. unfold rows_from.
  by rewrite sorted_rows_perm.
Qed.

Lemma rows_from_atom_is_degree_witness :
  rows_from 0 (connectivity methane_encoded) = degree methane 0.
Proof.
  apply (rows_from_atom_is_degree methane qm9_atom_types qm9_bond_types).
  exact methane_record.
Defined.

Example methane_carbon_degree : degree methane 0 = 4.
Proof. reflexivity. Qed.

(** ** More on the vocabulary builder *)

Lemma make_type_lookup_tables_NoDup mols :
  NoDup (make_type_lookup_tables mols).1 ∧
  NoDup (make_type_lookup_tables mols).2.
Proof.
  rewrite make_type_lookup_tables_eq. simpl.
  split; apply sorted_NoDup, NoDup_elements.
Qed.

Lemma index_NoDup {A} `{EqDecision A} (l : list A) x i :
  NoDup l → index l x = Ok i ↔ l !! i = Some x.
Proof.
  intros Hnd. rewrite index_Ok. split; [tauto|].
  intros Hi. split; [done|]. intros j Hj Hlj.
  pose proof (NoDup_lookup _ _ _ _ Hnd Hi Hlj). lia.
Qed.

(** X11.  Two corpora in which the same atomic numbers and the same bond
    types occur give the same vocabularies: the order of the molecules, their
    repetition and the place where a type occurs do not matter. *)
Theorem tables_depend_on_observed_types mols mols' :
  (∀ z, (∃ mol a, mol ∈ mols ∧ a ∈ GetAtoms mol ∧ GetAtomicNum a = z) ↔
        (∃ mol a, mol ∈ mols' ∧ a ∈ GetAtoms mol ∧ GetAtomicNum a = z)) →
  (∀ t, (∃ mol b, mol ∈ mols ∧ b ∈ GetBonds mol ∧ GetBondType b = t) ↔
        (∃ mol b, mol ∈ mols' ∧ b ∈ GetBonds mol ∧ GetBondType b = t)) →
  make_type_lookup_tables mols = make_type_lookup_tables mols'.
Proof.
  intros Hatoms Hbonds. rewrite !make_type_lookup_tables_eq.
  assert ((observed_types mols).1 = (observed_types mols').1) as ->.
  { apply set_eq. intros z. by rewrite !observed_atom_types. }
  assert ((observed_types mols).2 = (observed_types mols').2) as ->.
  { apply set_eq. intros t. by rewrite !observed_bond_types. }
  done.
Qed.

Lemma tables_depend_on_observed_types_witness :
  make_type_lookup_tables [methane; acetaldehyde]
  = make_type_lookup_tables [acetaldehyde; water; methane; acetaldehyde].
Proof.
  assert (observed_types [methane; acetaldehyde]
          = observed_types [acetaldehyde; water; methane; acetaldehyde]) as Heq
    by (vm_compute; reflexivity).
  apply (tables_depend_on_observed_types
           [methane; acetaldehyde]
           [acetaldehyde; water; methane; acetaldehyde]).
  - intros z. by rewrite <-!observed_atom_types, Heq.
  - intros t. by rewrite <-!observed_bond_types, Heq.
Defined.

(** X12.  In the vocabularies that [make_type_lookup_tables] returns,
    [list.index] is the inverse of the lookup by position: [index] of a type
    is [i] exactly when the type stands at position [i]. *)
Theorem tables_index_inverse mols :
  (∀ z i, index (make_type_lookup_tables mols).1 z = Ok i ↔
          (make_type_lookup_tables mols).1 !! i = Some z) ∧
  (∀ t i, index (make_type_lookup_tables mols).2 t = Ok i ↔
          (make_type_lookup_tables mols).2 !! i = Some t).
Proof.
  destruct (make_type_lookup_tables_NoDup mols) as [Ha Hb].
  split; intros x i; by apply index_NoDup.
Qed.

(** ** Encoding the whole column of molecules *)

Lemma encode_corpus_eq mols :
  encode_corpus mols =
  apply_convert_mol_to_dict mols (make_type_lookup_tables mols).1
                                 (make_type_lookup_tables mols).2.
Proof. unfold encode_corpus. by destruct (make_type_lookup_tables mols). Qed.

(** With the vocabularies covering the molecule, the only failure is the one
    of the check. *)
Lemma in_vocabulary_raises mol atom_types bond_types e :
  in_vocabulary mol atom_types bond_types →
  convert_mol_to_dict mol atom_types bond_types = Raise e →
  e = NameError "convert_nx_to_smiles".
Proof.
  intros [[aids Ha] [eids He]]%in_vocabulary_lookups.
  rewrite convert_mol_to_dict_cases, Ha, He.
  case_decide; [by intros [= <-]|done].
Qed.

Lemma apply_convert_mol_to_dict_is_Ok mols atom_types bond_types :
  is_Ok (apply_convert_mol_to_dict mols atom_types bond_types) ↔
  ∀ mol, mol ∈ mols → is_Ok (convert_mol_to_dict mol atom_types bond_types).
Proof.
  unfold apply_convert_mol_to_dict. split.
  - intros [rs Hrs%mapM_Ok] mol (i & Hi)%list_elem_of_lookup_1.
    destruct (Forall2_lookup_l _ _ _ _ _ Hrs Hi) as (r & _ & Hr). by exists r.
  - intros Hall. apply mapM_is_Ok, Forall_forall. exact Hall.
Qed.

(** X13.  When the vocabularies are built from the column that is encoded,
    no lookup can fail: if the eighth cell fails at all, it fails with the
    [NameError] of the check on the largest index. *)
Theorem encode_corpus_raises mols e :
  encode_corpus mols = Raise e → e = NameError "convert_nx_to_smiles".
Proof.
  rewrite encode_corpus_eq. unfold apply_convert_mol_to_dict.
  intros (mol & Hmol & Hraise)%mapM_Raise.
  eapply in_vocabulary_raises; [|exact Hraise].
  by apply corpus_in_vocabulary.
Qed.

Lemma encode_corpus_raises_witness :
  encode_corpus [methane; CO2_then_fluoride]
  = Raise (NameError "convert_nx_to_smiles") ∧
  NameError "convert_nx_to_smiles" = NameError "convert_nx_to_smiles".
Proof.
  split; [vm_compute; reflexivity|].
  apply (encode_corpus_raises [methane; CO2_then_fluoride]).
  vm_compute. reflexivity.
Defined.

(** X14.  For molecules whose bonds join their own atoms, the eighth cell
    succeeds exactly when every molecule that has a bond has its last atom
    bonded; it then gives one record per molecule, in the order of the
    column, each the record of its molecule. *)
Theorem encode_corpus_succeeds mols :
  (∀ mol, mol ∈ mols → bonds_in_range mol) →
  (is_Ok (encode_corpus mols) ↔
   ∀ mol, mol ∈ mols → GetBonds mol ≠ [] →
          bonded mol (length (GetAtoms mol) - 1)) ∧
  (∀ rs, encode_corpus mols = Ok rs →
     length rs = length mols ∧
     ∀ i mol, mols !! i = Some mol →
       ∃ r, rs !! i = Some r ∧
            convert_mol_to_dict mol (make_type_lookup_tables mols).1
                                    (make_type_lookup_tables mols).2 = Ok r).
Proof.
  intros Hrange. rewrite encode_corpus_eq. split.
  - rewrite apply_convert_mol_to_dict_is_Ok. split.
    + intros Hall mol Hmol Hbonds.
      apply array_max_last_atom; [done|by apply Hrange|].
      destruct (Hall mol Hmol)
        as [r (_ & _ & _ & _ & Hmax & _)%convert_mol_to_dict_Ok].
      by apply Hmax.
    + intros Hall mol Hmol. apply convert_mol_to_dict_is_Ok.
      * by apply corpus_in_vocabulary.
      * intros Hbonds. apply array_max_last_atom; [done|by apply Hrange|].
        by apply Hall.
  - unfold apply_convert_mol_to_dict. intros rs Hrs. split.
    + by eapply mapM_Ok_length.
    + intros i mol Hi. exact (mapM_Ok_lookup _ _ _ _ _ Hrs Hi).
Qed.

Lemma encode_corpus_succeeds_witness :
  (is_Ok (encode_corpus [methane; water]) ↔
   ∀ mol, mol ∈ [methane; water] → GetBonds mol ≠ [] →
          bonded mol (length (GetAtoms mol) - 1)) ∧
  (∀ rs, encode_corpus [methane; water] = Ok rs →
     length rs = length [methane; water] ∧
     ∀ i mol, [methane; water] !! i = Some mol →
       ∃ r, rs !! i = Some r ∧
            convert_mol_to_dict mol
              (make_type_lookup_tables [methane; water]).1
              (make_type_lookup_tables [methane; water]).2 = Ok r).
Proof.
  apply (encode_corpus_succeeds [methane; water]).
  intros mol Hmol b Hb.
  apply elem_of_cons in Hmol as [->|Hmol];
    [|apply elem_of_cons in Hmol as [->|Hmol]];
    [| |by apply elem_of_nil in Hmol];
    simpl in Hb;
    repeat (apply elem_of_cons in Hb as [->|Hb]);
    try (by apply elem_of_nil in Hb); simpl; lia.
Defined.

Example encode_methane_and_water :
  encode_corpus [methane; water]
  = Ok [ {| n_atom := 5; n_bond := 8; atom := [1; 0; 0; 0; 0];
            bond := [0; 0; 0; 0; 0; 0; 0; 0];
            connectivity :=
              [(0,1); (0,2); (0,3); (0,4); (1,0); (2,0); (3,0); (4,0)] |};
         {| n_atom := 3; n_bond := 4; atom := [2; 0; 0];
            bond := [0; 0; 0; 0];
            connectivity := [(0,1); (0,2); (1,0); (2,0)] |} ].
Proof. vm_compute. reflexivity. Qed.

(** ** The dict objects of the column [data['dict']] *)

Section dataset_dicts_facts.
Context {float : Type}.

Abbreviation heap := (gmap nat (gmap string (Value float))).
Abbreviation as_dict := (@as_dict float).

Lemma apply_convert_on_heap_Ok mols atom_types bond_types :
  ∀ (h h' : heap) (ls : list nat),
  apply_convert_on_heap h mols atom_types bond_types = Ok (ls, h') →
  NoDup ls ∧
  (∀ l, l ∈ ls → l ∉ dom h) ∧
  (∀ l, l ∈ dom h → h' !! l = h !! l) ∧
  dom h' = dom h ∪ list_to_set ls ∧
  ∃ rs, apply_convert_mol_to_dict mols atom_types bond_types = Ok rs ∧
        Forall2 (λ r l, h' !! l = Some (as_dict r)) rs ls.
Proof.
  induction mols as [|mol mols IH]; intros h h' ls; simpl.
  - intros [= <- <-]. split_and!.
    + constructor.
    + intros l Hl. by apply elem_of_nil in Hl.
    + done.
    + set_solver.
    + exists []. split; [done|constructor].
  - destruct (call_convert_mol_to_dict h mol atom_types bond_types)
      as [[l h1]|e] eqn:Hcall; [|done].
    rewrite result_bind_Ok. cbn [fst snd].
    destruct (apply_convert_on_heap h1 mols atom_types bond_types)
      as [[ls' h2]|e] eqn:Hrest; [|done].
    rewrite result_bind_Ok. cbn [fst snd]. intros [= <- <-].
    apply call_convert_mol_to_dict_Ok in Hcall as (r & Hr & -> & ->).
    destruct (IH _ _ _ Hrest) as (Hnd & Hfresh & Hkeep & Hdom & rs & Hrs & Hall).
    rewrite dom_insert_L in Hfresh, Hkeep, Hdom.
    pose proof (is_fresh (dom h)) as Hnew.
    split_and!.
    + constructor; [|done]. intros Hin. apply Hfresh in Hin. set_solver.
    + intros l [->|Hl]%elem_of_cons; [done|]. apply Hfresh in Hl. set_solver.
    + intros l Hl. rewrite Hkeep by set_solver.
      apply lookup_insert_ne. by intros <-.
    + rewrite Hdom, list_to_set_cons. set_solver.
    + exists (r :: rs). split.
      * unfold apply_convert_mol_to_dict in *. simpl. by rewrite Hr, Hrs.
      * constructor; [|done]. rewrite Hkeep by set_solver.
        apply lookup_insert_eq.
Qed.

(** X15.  When the eighth cell succeeds, the column [data['dict']] holds one
    reference per molecule, all different and all to objects that did not
    exist before; each object is the dict of the record of its molecule, and
    the objects that existed before are as they were. *)
Theorem apply_convert_on_heap_new_dicts
    mols atom_types bond_types (h h' : heap) (ls : list nat) :
  apply_convert_on_heap h mols atom_types bond_types = Ok (ls, h') →
  length ls = length mols ∧
  NoDup ls ∧
  (∀ l, l ∈ ls → l ∉ dom h) ∧
  (∀ l, l ∈ dom h → h' !! l = h !! l) ∧
  ∀ i mol, mols !! i = Some mol →
    ∃ l r, ls !! i = Some l ∧
           convert_mol_to_dict mol atom_types bond_types = Ok r ∧
           h' !! l = Some (as_dict r).
Proof.
  intros (Hnd & Hfresh & Hkeep & _ & rs & Hrs & Hall)%apply_convert_on_heap_Ok.
  unfold apply_convert_mol_to_dict in Hrs.
  pose proof (mapM_Ok_length _ _ _ Hrs) as Hlen.
  pose proof (Forall2_length _ _ _ Hall) as Hlen'.
  split_and!; [lia|done..|].
  intros i mol Hi.
  destruct (mapM_Ok_lookup _ _ _ _ _ Hrs Hi) as (r & Hri & Hr).
  destruct (Forall2_lookup_l _ _ _ _ _ Hall Hri) as (l & Hl & Hhl).
  by exists l, r.
Qed.

End dataset_dicts_facts.

Lemma apply_convert_on_heap_new_dicts_witness :
  let h : gmap nat (gmap string (Value Q)) := {[ 0 := ∅ ]} in
  let st1 := new_dict h (as_dict methane_encoded) in
  let st2 := new_dict st1.2 (as_dict methane_encoded) in
  length [st1.1; st2.1] = length [methane; methane] ∧
  NoDup [st1.1; st2.1] ∧
  (∀ l, l ∈ [st1.1; st2.1] → l ∉ dom h) ∧
  (∀ l, l ∈ dom h → st2.2 !! l = h !! l) ∧
  ∀ i mol, [methane; methane] !! i = Some mol →
    ∃ l r, [st1.1; st2.1] !! i = Some l ∧
           convert_mol_to_dict mol qm9_atom_types qm9_bond_types = Ok r ∧
           st2.2 !! l = Some (as_dict r).
Proof.
  intros h st1 st2.
  apply (apply_convert_on_heap_new_dicts
           [methane; methane] qm9_atom_types qm9_bond_types h st2.2
           [st1.1; st2.1]).
  unfold apply_convert_on_heap, call_convert_mol_to_dict.
  rewrite methane_record. reflexivity.
Defined.

(** ** What the loop of the last cell writes *)

Section written_records_facts.
Context {float tfrecord : Type}.
Variable make_tfrecord : gmap string (Value float) → tfrecord.

Abbreviation dict := (gmap string (Value float)).
Abbreviation heap := (gmap nat (gmap string (Value float))).
Abbreviation with_labels := (@with_labels float).
Abbreviation label_entry := (@label_entry float).
Abbreviation labels_for := (@labels_for float).
Abbreviation labelled_dict := (@labelled_dict float).

Abbreviation records := (written_records make_tfrecord).

Lemma with_labels_labels_for u b l es (d : dict) :
  with_labels u b (labels_for l es d) = with_labels u b d.
Proof.
  destruct (decide (l ∈ entry_dict <$> es)) as [Hin|Hout].
  - destruct (labels_for_elem_of l es d Hin) as (u' & b' & ->).
    apply with_labels_idemp.
  - by rewrite labels_for_other.
Qed.

Lemma labels_for_absorbs u b l es (d : dict) :
  l ∈ entry_dict <$> es →
  labels_for l es (with_labels u b d) = labels_for l es d.
Proof.
  revert u b d. induction es as [|e es IH]; intros u b d Hl.
  - by apply elem_of_nil in Hl.
  - unfold labels_for. cbn [foldl]. case_decide as He.
    + by rewrite with_labels_idemp.
    + rewrite fmap_cons in Hl. apply elem_of_cons in Hl as [?|Hl]; [done|].
      by apply IH.
Qed.

Lemma labels_for_idemp l es (d : dict) :
  labels_for l es (labels_for l es d) = labels_for l es d.
Proof.
  destruct (decide (l ∈ entry_dict <$> es)) as [Hin|Hout].
  - destruct (labels_for_elem_of l es d Hin) as (u & b & Heq).
    rewrite Heq at 1. by apply labels_for_absorbs.
  - by rewrite !labels_for_other.
Qed.

Lemma labelled_heap_idemp es (h : heap) :
  foldl (λ h e, label_entry e h) (foldl (λ h e, label_entry e h) h es) es
  = foldl (λ h e, label_entry e h) h es.
Proof.
  apply map_eq. intros l. rewrite !labelled_heap_lookup.
  destruct (h !! l) as [d|]; [|done].
  cbn [fmap option_fmap option_map]. f_equal. apply labels_for_idemp.
Qed.

Lemma labelled_dict_labelled_heap es (h : heap) e :
  labelled_dict (foldl (λ h e, label_entry e h) h es) e = labelled_dict h e.
Proof.
  unfold labelled_dict.
  rewrite !lookup_total_alt, labelled_heap_lookup.
  destruct (h !! entry_dict e) as [d|]; [|done].
  cbn [fmap option_fmap option_map default]. apply with_labels_labels_for.
Qed.

Lemma records_labelled_heap es' (h : heap) es :
  records (foldl (λ h e, label_entry e h) h es') es = records h es.
Proof.
  unfold written_records. apply list_fmap_ext. intros i e _.
  by rewrite labelled_dict_labelled_heap.
Qed.

Lemma records_label_entry e (h : heap) es :
  records (label_entry e h) es = records h es.
Proof. exact (records_labelled_heap [e] h es). Qed.

Lemma write_entries_exact es :
  ∀ (h : heap) (w : list tfrecord),
  (∀ e, e ∈ es → entry_dict e ∈ dom h) →
  foldl (write_entry make_tfrecord) (h, w) es
  = (foldl (λ h e, label_entry e h) h es, w ++ records h es).
Proof.
  induction es as [|e es IH]; intros h w Hdom.
  - unfold written_records. cbn [foldl fmap list_fmap]. by rewrite app_nil_r.
  - cbn [foldl]. rewrite write_entry_eq. cbn [fst snd].
    rewrite IH.
    + rewrite records_label_entry.
      unfold written_records at 2. rewrite fmap_cons, <-app_assoc.
      do 3 f_equal.
      assert (is_Some (h !! entry_dict e)) as [d Hd]
        by (apply elem_of_dom, Hdom; by left).
      unfold labelled_dict, label_entry.
      rewrite lookup_total_alter_eq, (lookup_total_correct _ _ _ Hd), Hd.
      reflexivity.
    + intros e' He'. unfold label_entry.
      rewrite dom_alter_L. apply Hdom. by right.
Qed.

Lemma write_partition_exact (h : heap) files name es :
  (∀ e, e ∈ es → entry_dict e ∈ dom h) →
  write_partition make_tfrecord (h, files) (name, es)
  = (foldl (λ h e, label_entry e h) h es,
     <[file_name name := records h es]> files).
Proof.
  intros Hdom. unfold write_partition. cbn [fst snd].
  by rewrite write_entries_exact.
Qed.

(** The state after the loop of the last cell. *)
Lemma save_data_exact train_data valid_data test_data (h : heap) files :
  (∀ e, e ∈ train_data ++ valid_data ++ test_data → entry_dict e ∈ dom h) →
  save_data make_tfrecord train_data valid_data test_data (h, files)
  = (foldl (λ h e, label_entry e h) h (train_data ++ valid_data ++ test_data),
     <[file_name "test" := records h test_data]>
       (<[file_name "valid" := records h valid_data]>
          (<[file_name "train" := records h train_data]> files))).
Proof.
  intros Hdom. unfold save_data, write_partitions. cbn [zip_with foldl].
  rewrite write_partition_exact by (intros e He; apply Hdom; set_solver).
  rewrite write_partition_exact
    by (intros e He; rewrite labelled_heap_dom; apply Hdom; set_solver).
  rewrite write_partition_exact
    by (intros e He; rewrite !labelled_heap_dom; apply Hdom; set_solver).
  rewrite !foldl_app. f_equal.
  rewrite <-foldl_app, !records_labelled_heap. done.
Qed.

(** X16.  When every entry refers to an existing dict, each of the three
    files holds one record per entry of its partition, in the order of the
    rows: the serialisation of the dict that the entry refers to before the
    loop, with the labels of that entry, also when several entries refer to
    one dict.  The other files are left as they are. *)
Theorem save_data_files
    (train_data valid_data test_data : list (Entry float))
    (h : heap) (files : gmap string (list tfrecord)) :
  (∀ e, e ∈ train_data ++ valid_data ++ test_data → entry_dict e ∈ dom h) →
  (save_data make_tfrecord train_data valid_data test_data (h, files)).2
  = <[file_name "test" := written_records make_tfrecord h test_data]>
      (<[file_name "valid" := written_records make_tfrecord h valid_data]>
         (<[file_name "train" := written_records make_tfrecord h train_data]>
            files)).
Proof. intros Hdom. by rewrite save_data_exact. Qed.

(** X17.  Running the loop of the last cell a second time changes nothing:
    the dicts and the three files are as after the first run. *)
Theorem save_data_idempotent
    (train_data valid_data test_data : list (Entry float))
    (h : heap) (files : gmap string (list tfrecord)) :
  (∀ e, e ∈ train_data ++ valid_data ++ test_data → entry_dict e ∈ dom h) →
  save_data make_tfrecord train_data valid_data test_data
    (save_data make_tfrecord train_data valid_data test_data (h, files))
  = save_data make_tfrecord train_data valid_data test_data (h, files).
Proof.
  intros Hdom. rewrite (save_data_exact _ _ _ h files Hdom).
  rewrite save_data_exact
    by (intros e He; rewrite labelled_heap_dom; by apply Hdom).
  rewrite labelled_heap_idemp, !records_labelled_heap. f_equal.
  apply map_eq. intros name.
  rewrite !lookup_insert. by repeat case_decide.
Qed.

End written_records_facts.

Section loop_frame_facts.
Context {float tfrecord : Type}.
Variable make_tfrecord : gmap string (Value float) → tfrecord.

Abbreviation dict := (gmap string (Value float)).
Abbreviation heap := (gmap nat (gmap string (Value float))).
Abbreviation label_entry := (@label_entry float).
Abbreviation labels_for := (@labels_for float).

Lemma save_data_heap train_data valid_data test_data (h : heap) files :
  (save_data make_tfrecord train_data valid_data test_data (h, files)).1
  = foldl (λ h e, label_entry e h) h (train_data ++ valid_data ++ test_data).
Proof.
  unfold save_data, write_partitions, write_partition.
  cbn [zip_with foldl fst snd].
  rewrite !write_entries_heap. cbn [fst snd]. by rewrite !foldl_app.
Qed.

Lemma labels_for_lookup_field l es (d : dict) k :
  k ≠ "u0_atom"%string → k ≠ "bandgap"%string →
  labels_for l es d !! k = d !! k.
Proof.
  intros Hu Hb. destruct (decide (l ∈ entry_dict <$> es)) as [Hin|Hout].
  - destruct (labels_for_elem_of l es d Hin) as (u & b & ->).
    by apply with_labels_lookup_field.
  - by rewrite labels_for_other.
Qed.

(** X18.  Whatever the dicts hold, the loop of the last cell makes no dict
    and drops none, and in every dict it leaves every key other than
    [u0_atom] and [bandgap] with the value it had. *)
Theorem save_data_keeps_other_keys
    (train_data valid_data test_data : list (Entry float))
    (h : heap) (files : gmap string (list tfrecord)) (k : string) :
  k ≠ "u0_atom"%string → k ≠ "bandgap"%string →
  dom (save_data make_tfrecord train_data valid_data test_data (h, files)).1
  = dom h ∧
  ∀ l,
    (save_data make_tfrecord train_data valid_data test_data (h, files)).1
      !! l ≫= (λ d, d !! k)
    = h !! l ≫= (λ d, d !! k).
Proof.
  intros Hu Hb. rewrite save_data_heap. split.
  - apply labelled_heap_dom.
  - intros l. rewrite labelled_heap_lookup.
    destruct (h !! l) as [d|]; [|done].
    cbn [fmap option_fmap option_map mbind option_bind].
    by apply labels_for_lookup_field.
Qed.

End loop_frame_facts.

(** ** The loop on concrete entries *)

Lemma rows_refer_to_dicts :
  ∀ e, e ∈ [row0] ++ [row1; row0'] ++ [] → entry_dict e ∈ dom two_dicts.
Proof.
  intros e He. unfold two_dicts. rewrite !dom_insert_L.
  cbn [app] in He.
  repeat (apply elem_of_cons in He as [->|He]);
    [| | |by apply elem_of_nil in He]; cbn [entry_dict row0 row1 row0'];
    set_solver.
Qed.

Lemma save_data_files_witness :
  (save_data (λ d, d) [row0] [row1; row0'] [] (two_dicts, ∅)).2
  = <[file_name "test" := written_records (λ d, d) two_dicts []]>
      (<[file_name "valid" :=
           written_records (λ d, d) two_dicts [row1; row0']]>
         (<[file_name "train" := written_records (λ d, d) two_dicts [row0]]>
            ∅)).
Proof.
  apply (save_data_files (λ d, d) [row0] [row1; row0'] [] two_dicts ∅).
  exact rows_refer_to_dicts.
Defined.

Lemma save_data_idempotent_witness :
  save_data (λ d, d) [row0] [row1; row0'] []
    (save_data (λ d, d) [row0] [row1; row0'] [] (two_dicts, ∅))
  = save_data (λ d, d) [row0] [row1; row0'] [] (two_dicts, ∅).
Proof.
  apply (save_data_idempotent (λ d, d) [row0] [row1; row0'] [] two_dicts ∅).
  exact rows_refer_to_dicts.
Defined.

Lemma save_data_keeps_other_keys_witness :
  dom (save_data (λ d, d) [row0] [row1; row0'] [] (two_dicts, ∅)).1
  = dom two_dicts ∧
  ∀ l,
    (save_data (λ d, d) [row0] [row1; row0'] [] (two_dicts, ∅)).1
      !! l ≫= (λ d, d !! "atom"%string)
    = two_dicts !! l ≫= (λ d, d !! "atom"%string).
Proof.
  apply (save_data_keeps_other_keys
           (λ d, d) [row0] [row1; row0'] [] two_dicts ∅ "atom"%string);
    discriminate.
Defined.

(** ** The connectivity array of a record *)

Lemma np_array_two_axes (l : list Row) : l ≠ [] → np_array l = Array2 l.
Proof. by destruct l. Qed.

(** The array that lines 204 to 216 leave in [connectivity]. *)
Lemma connectivity_array_cases mol rows n_atoms :
  connectivity_array mol rows n_atoms =
  if decide (rows ≠ [] ∧
             Z.of_nat (array_max rows) ≠ (Z.of_nat n_atoms - 1)%Z)
  then Raise (NameError "convert_nx_to_smiles")
  else Ok (if decide (rows = []) then np_zeros 0
           else Array2 (sorted_rows rows)).
Proof.
  unfold connectivity_array. destruct rows as [|row rows].
  - cbn [np_array ndarray_size length]. rewrite bool_decide_eq_false_2 by lia.
    rewrite decide_False by (by intros [? _]). by rewrite decide_True.
  - cbn [np_array ndarray_size]. unfold array_size.
    rewrite bool_decide_eq_true_2 by (simpl; lia).
    unfold ndarray_take, ndarray_column0, ndarray_column1.
    cbn [ndarray_rows ndarray_max].
    fold (sorted_rows (row :: rows)). rewrite array_max_sorted_rows.
    rewrite (decide_False (P := row :: rows = [])) by done.
    case_bool_decide as Hmax.
    + rewrite load_convert_nx_to_smiles.
      by rewrite decide_True by (split; [done|exact Hmax]).
    + by rewrite decide_False by (intros [_ ?]; done).
Qed.

(** The table of a record is the array of lines 204 to 216, row by row: the
    encoder is its two lookups, then these lines, then the dict literal. *)
Lemma convert_mol_to_dict_connectivity_array mol atom_types bond_types :
  convert_mol_to_dict mol atom_types bond_types =
  (atom_type_id ← mapM (index atom_types) (GetAtomicNum <$> GetAtoms mol);
   edge_type_id ← mapM (index bond_types) (directed_types (GetBonds mol));
   connectivity_arr ← connectivity_array
     mol (directed_rows (GetBonds mol)) (length (GetAtoms mol));
   Ok {| n_atom := length (GetAtoms mol);
         n_bond := 2 * length (GetBonds mol);
         atom := atom_type_id; bond := edge_type_id;
         connectivity := ndarray_rows connectivity_arr |}).
Proof.
  rewrite convert_mol_to_dict_cases, connectivity_array_cases.
  destruct (mapM (index atom_types) _) as [aids|e1]; [|done].
  rewrite result_bind_Ok.
  destruct (mapM (index bond_types) _) as [eids|e2]; [|done].
  rewrite result_bind_Ok.
  destruct (GetBonds mol) as [|b bonds].
  - rewrite !decide_False by (by intros [? _]).
    rewrite result_bind_Ok. by rewrite decide_True.
  - assert (directed_rows (b :: bonds) ≠ []) as Hrows by done.
    destruct (decide (Z.of_nat (array_max (directed_rows (b :: bonds)))
                      = (Z.of_nat (length (GetAtoms mol)) - 1)%Z))
      as [Hmax|Hmax].
    + rewrite !decide_False by (intros [_ ?]; done).
      rewrite result_bind_Ok. by rewrite decide_False.
    + by rewrite !decide_True by (split; done).
Qed.





(** ** Two calls of the encoder on the same objects *)

Section store_model_facts.
Context {float : Type}.

Abbreviation as_dict := (@as_dict float).

Lemma run_bind_unfold {A B} (m : Run float A) (f : A → Run float B) σ :
  (m ≫= f) σ = match m σ with
               | (Ok a, σ') => f a σ'
               | (Raise e, σ') => (Raise e, σ')
               end.
Proof. reflexivity. Qed.

(** The lookups of a call read the list object and leave the store as it
    is. *)
Lemma mapM_list_index l xs (σ : Store float) :
  mapM (list_index l) xs σ = (mapM (index (int_lists σ !!! l)) xs, σ).
Proof.
  induction xs as [|x xs IH]; [reflexivity|].
  cbn [mapM]. rewrite run_bind_unfold. unfold list_index at 1.
  destruct (index (int_lists σ !!! l) x) as [i|e]; [|reflexivity].
  rewrite result_bind_Ok, run_bind_unfold, IH.
  by destruct (mapM (index (int_lists σ !!! l)) xs).
Qed.

Lemma mapM_bond_list_index l xs (σ : Store float) :
  mapM (bond_list_index l) xs σ = (mapM (index (bond_lists σ !!! l)) xs, σ).
Proof.
  induction xs as [|x xs IH]; [reflexivity|].
  cbn [mapM]. rewrite run_bind_unfold. unfold bond_list_index at 1.
  destruct (index (bond_lists σ !!! l) x) as [i|e]; [|reflexivity].
  rewrite result_bind_Ok, run_bind_unfold, IH.
  by destruct (mapM (index (bond_lists σ !!! l)) xs).
Qed.

(** A call on the store reads the two list objects where it is called; it
    ends as the encoder does on the lists they hold then, and the only
    object it writes is the dict it returns. *)
Lemma convert_mol_to_dict_in_store_eq mol atom_types bond_types σ :
  convert_mol_to_dict_in_store mol atom_types bond_types σ =
  match convert_mol_to_dict mol (int_lists σ !!! atom_types)
                                (bond_lists σ !!! bond_types) with
  | Ok r => dict_literal (as_dict r) σ
  | Raise e => (Raise e, σ)
  end.
Proof.
  rewrite convert_mol_to_dict_connectivity_array.
  unfold convert_mol_to_dict_in_store. rewrite bond_loop_eq.
  rewrite run_bind_unfold, mapM_list_index.
  destruct (mapM (index (int_lists σ !!! atom_types))
                 (GetAtomicNum <$> GetAtoms mol)) as [aids|e]; [|reflexivity].
  rewrite result_bind_Ok, run_bind_unfold, mapM_bond_list_index.
  destruct (mapM (index (bond_lists σ !!! bond_types))
                 (directed_types (GetBonds mol))) as [bids|e]; [|reflexivity].
  rewrite result_bind_Ok, run_bind_unfold. unfold lift.
  rewrite length_fmap.
  destruct (connectivity_array mol (directed_rows (GetBonds mol))
              (length (GetAtoms mol))) as [arr|e]; [|reflexivity].
  rewrite result_bind_Ok. by rewrite directed_types_length.
Qed.

(** C8.  Two calls of [convert_mol_to_dict] on the same molecule with the
    same two vocabulary objects, one after the other: the first call leaves
    the vocabularies as they were, so the second call reads the same lists.
    When the first call returns a dict, the second returns another dict
    object, both hold the record of the molecule (the same five keys with
    equal values) and the dicts that existed before are as they were; when
    the first call ends in an exception, the second ends in the same one and
    the store is unchanged. *)
Theorem two_calls_return_equal_dicts
    mol atom_types bond_types (σ σ1 σ2 : Store float) res1 res2 :
  convert_mol_to_dict_in_store mol atom_types bond_types σ = (res1, σ1) →
  convert_mol_to_dict_in_store mol atom_types bond_types σ1 = (res2, σ2) →
  int_lists σ2 = int_lists σ ∧
  bond_lists σ2 = bond_lists σ ∧
  (∀ l, l ∈ dom (dicts σ) → dicts σ2 !! l = dicts σ !! l) ∧
  match res1 with
  | Ok l1 =>
      ∃ l2 r,
        res2 = Ok l2 ∧ l1 ≠ l2 ∧
        (l1 ∉ dom (dicts σ)) ∧ (l2 ∉ dom (dicts σ)) ∧
        convert_mol_to_dict mol (int_lists σ !!! atom_types)
                                (bond_lists σ !!! bond_types) = Ok r ∧
        dicts σ2 !! l1 = Some (as_dict r) ∧
        dicts σ2 !! l2 = Some (as_dict r) ∧
        dom (as_dict r) = encoder_fields
  | Raise e => res2 = Raise e ∧ σ2 = σ
  end.
Proof.
  intros H1 H2. rewrite convert_mol_to_dict_in_store_eq in H1.
  destruct (convert_mol_to_dict mol (int_lists σ !!! atom_types)
              (bond_lists σ !!! bond_types)) as [r|e] eqn:Hr.
  - unfold dict_literal, new_dict in H1. cbn [fst snd] in H1.
    injection H1 as <- <-.
    rewrite convert_mol_to_dict_in_store_eq in H2.
    cbn [int_lists bond_lists dicts] in H2. rewrite Hr in H2.
    unfold dict_literal, new_dict in H2.
    cbn [fst snd int_lists bond_lists dicts] in H2.
    injection H2 as <- <-. cbn [int_lists bond_lists dicts].
    pose proof (is_fresh (dom (dicts σ))) as Hl1.
    pose proof (is_fresh (dom (<[fresh (dom (dicts σ)) := as_dict r]>
                                 (dicts σ)))) as Hl2.
    set (l1 := fresh (dom (dicts σ))) in *.
    set (l2 := fresh (dom (<[l1 := as_dict r]> (dicts σ)))) in *.
    assert (l1 ≠ l2) as Hne.
    { intros Heq. apply Hl2. rewrite <- Heq.
      eapply elem_of_dom_2, lookup_insert_eq. }
    assert (l2 ∉ dom (dicts σ)) as Hl2'.
    { intros Hin. apply Hl2. rewrite dom_insert_L.
      by apply elem_of_union_r. }
    split_and!; [done..| |].
    + intros l Hl. rewrite !lookup_insert_ne; [done|by intros <-..].
    + exists l2, r. split_and!; [done..| | |].
      * rewrite lookup_insert_ne by done. apply lookup_insert_eq.
      * apply lookup_insert_eq.
      * apply dom_as_dict.
  - injection H1 as <- <-.
    rewrite convert_mol_to_dict_in_store_eq, Hr in H2.
    injection H2 as <- <-. done.
Qed.

End store_model_facts.

Lemma two_calls_return_equal_dicts_witness :
  let st1 := new_dict (dicts qm9_store) (as_dict methane_encoded) in
  let st2 := new_dict st1.2 (as_dict methane_encoded) in
  let σ1 : Store Q := {| int_lists := int_lists qm9_store;
                         bond_lists := bond_lists qm9_store;
                         dicts := st1.2 |} in
  let σ2 : Store Q := {| int_lists := int_lists qm9_store;
                         bond_lists := bond_lists qm9_store;
                         dicts := st2.2 |} in
  (convert_mol_to_dict_in_store methane 0 1 qm9_store = (Ok st1.1, σ1) ∧
   convert_mol_to_dict_in_store methane 0 1 σ1 = (Ok st2.1, σ2)) ∧
  int_lists σ2 = int_lists qm9_store ∧
  bond_lists σ2 = bond_lists qm9_store ∧
  (∀ l, l ∈ dom (dicts qm9_store) → dicts σ2 !! l = dicts qm9_store !! l) ∧
  ∃ l2 r,
    Ok st2.1 = Ok l2 ∧ st1.1 ≠ l2 ∧
    (st1.1 ∉ dom (dicts qm9_store)) ∧ (l2 ∉ dom (dicts qm9_store)) ∧
    convert_mol_to_dict methane (int_lists qm9_store !!! 0)
                                (bond_lists qm9_store !!! 1) = Ok r ∧
    dicts σ2 !! st1.1 = Some (as_dict r) ∧
    dicts σ2 !! l2 = Some (as_dict r) ∧
    dom (@as_dict Q r) = encoder_fields.
Proof.
  intros st1 st2 σ1 σ2.
  assert (convert_mol_to_dict_in_store methane 0 1 qm9_store = (Ok st1.1, σ1))
    as H1.
  { rewrite convert_mol_to_dict_in_store_eq.
    unfold qm9_store at 1 2. cbn [int_lists bond_lists].
    rewrite !lookup_total_singleton_eq, methane_record. reflexivity. }
  assert (convert_mol_to_dict_in_store methane 0 1 σ1 = (Ok st2.1, σ2)) as H2.
  { rewrite convert_mol_to_dict_in_store_eq.
    unfold σ1 at 1 2. cbn [int_lists bond_lists]. unfold qm9_store at 1 2.
    cbn [int_lists bond_lists].
    rewrite !lookup_total_singleton_eq, methane_record. reflexivity. }
  split; [by split|].
  exact (two_calls_return_equal_dicts
           methane 0 1 qm9_store σ1 σ2 (Ok st1.1) (Ok st2.1) H1 H2).
Defined.
